(** * image-ai-utils-server: the adaptive batch scheduler of [main.py]

    A shallow embedding of [src/main.py]: the streaming handshake
    ([authorize_web_socket], [websocket_handler]), the batch scheduler
    ([do_diffusion]) with its two progress callbacks, and the mask
    preparation of the [inpainting] endpoint.

    Conventions.
    - Python [int] is [Z]; [//] is floor division ([Z.div]) and raises
      [ZeroDivisionError] on a zero divisor; [/] on two ints is true
      division, whose float result is represented by the exact rational
      it rounds (rounding is monotone, so order statements carry over).
    - Exceptions are values of [exn]; an [async] function is a state
      transformer returning [result A * state]. One session is followed
      from its first frame on; [send_json] on its connection succeeds.
    - The generation pipeline, the settings, the image codecs and the
      tensor preprocessing live outside [main.py]; they are Section
      variables. *)

From stdpp Require Import base gmap strings list.
From Stdlib Require Import ZArith QArith Lia Sorted Ascii.

Local Open Scope Z_scope.

(** ** Python built-ins used by [main.py] *)

(** [range(n)] *)
Definition py_range (n : Z) : list Z :=
  Z.of_nat <$> seq 0 (Z.to_nat n).

(** [range(start, 0, -1)] *)
Definition py_range_down (start : Z) : list Z :=
  (fun k : nat => start - Z.of_nat k) <$> seq 0 (Z.to_nat start).

(** [[x] * n] *)
Definition py_repeat {A} (x : A) (n : Z) : list A :=
  repeat x (Z.to_nat n).

(** truth value of an [int] in [if n:] *)
Definition py_truthy (n : Z) : bool := negb (n =? 0).

(** ** Exceptions and results *)

Inductive exn : Type :=
| RuntimeError
| ZeroDivisionError
| AttributeError
| JSONDecodeError
| WebSocketDisconnect
| BatchSizeIsTooLargeException (batch_size : Z)
| AspectRatioTooWideException
| OtherException (name : string).

Inductive result (A : Type) : Type :=
| Ok (a : A)
| Raise (e : exn).
Arguments Ok {A} a.
Arguments Raise {A} e.

(** [a // b] *)
Definition py_floordiv (a b : Z) : result Z :=
  if b =? 0 then Raise ZeroDivisionError else Ok (a / b).

(** [a / b] on two ints *)
Definition py_truediv (a b : Z) : result Q :=
  if b =? 0 then Raise ZeroDivisionError
  else Ok (inject_Z a / inject_Z b)%Q.

(** ** The batch plan (main.py, lines 108 and 110) *)

(** [num_batches = request.num_variants // batch_size] *)
Definition num_batches_of (num_variants batch_size : Z) : result Z :=
  py_floordiv num_variants batch_size.

(** [last_batch_size = request.num_variants - batch_size * num_batches] *)
Definition last_batch_size_of (num_variants batch_size num_batches : Z) : Z :=
  num_variants - batch_size * num_batches.

(** ** JSON values and the WebSocket connection *)

(** What [json.loads] returns. *)
#[warnings="-register-all"]
Inductive json : Type :=
| JNull
| JBool (b : bool)
| JInt (n : Z)
| JFloat (x : Q)
| JStr (s : string)
| JList (l : list json)
| JDict (d : gmap string json).

(** Messages the server sends with [websocket.send_json]. *)
Inductive message : Type :=
| ProgressMessage (progress : Q)   (* {'status': PROGRESS, 'progress': p} *)
| FinishedMessage (payload : json) (* {'status': FINISHED, 'result': r} *).

(** What the next [websocket.receive_json()] meets: a text frame that
    parses, a text frame that does not, or the client's disconnect. *)
Inductive frame : Type :=
| TextJson (v : json)
| TextNotJson
| ClientDisconnect.

Record WebSocket : Type := mkWebSocket {
  accepted : bool;
  inbound : list frame;
  sent : list message;
  closed : option (Z * string)
}.

Definition ws_send (m : message) (ws : WebSocket) : WebSocket :=
  {| accepted := accepted ws; inbound := inbound ws;
     sent := sent ws ++ [m]; closed := closed ws |}.

(** The progress fractions among the messages sent, in sending order. *)
Definition progress_values (ms : list message) : list Q :=
  omap (fun m => match m with ProgressMessage p => Some p | _ => None end) ms.

(** ** The scheduler: [do_diffusion] (main.py, lines 93-161) *)

Section Scheduler.

(** [W]: the state of the device and of the loaded pipeline (its random
    generators included); [Image]: what the pipeline returns; [K]: the
    endpoint's keyword arguments ([**kwargs]). *)
Context {W Image K : Type}.

(** [BaseImageGenerationRequest], by the fields [do_diffusion] reads. *)
Record request : Type := mkRequest {
  prompt : string;
  seed : option Z;
  num_variants : Z;
  batch_size : Z;
  num_inference_steps : Z;
  guidance_scale : Q;
  try_smaller_batch_on_fail : bool
}.

(** The arguments of one call of [diffusion_method]. *)
Record call : Type := mkCall {
  call_prompt : list string;
  call_num_inference_steps : Z;
  call_generator : option Z;
  call_guidance_scale : Q;
  call_kwargs : K
}.

(** How one call of [diffusion_method] ends. [torch]'s out-of-memory
    error is a [RuntimeError]. *)
Inductive pipeline_outcome : Type :=
| Images (new_images : list Image)
| RaisesRuntimeError
| RaisesOther (name : string).

(** What one call does, as [do_diffusion] sees it: the arguments
    [(batch_step, total_batch_steps)] of its successive
    [progress_callback] calls, then its outcome. *)
Record invocation : Type := mkInvocation {
  step_reports : list (Z * Z);
  outcome : pipeline_outcome
}.

(** The generation operation ([pipeline.text_to_image],
    [pipeline.image_to_image]); it is not part of [main.py]. *)
Variable diffusion_method : W -> call -> invocation * W.

(** The state [do_diffusion] runs in. [attempted] is a ghost trace of
    the values the loop variable [batch_size] takes and [invocations]
    a ghost history of the calls of [diffusion_method]; [warnings] is
    what [logger.warning] has recorded (the batch size of each
    message). *)
Record state : Type := mkState {
  websocket : WebSocket;
  device : W;
  attempted : list Z;
  warnings : list Z;
  invocations : list (call * pipeline_outcome)
}.

Definition M (A : Type) : Type := state -> result A * state.

Definition ret {A} (a : A) : M A := fun st => (Ok a, st).
Definition raise {A} (e : exn) : M A := fun st => (Raise e, st).
Definition bind {A B} (m : M A) (k : A -> M B) : M B :=
  fun st => match m st with
            | (Ok a, st') => k a st'
            | (Raise e, st') => (Raise e, st')
            end.
Definition lift {A} (r : result A) : M A := fun st => (r, st).

Notation "x <- m ;; k" := (bind m (fun x => k))
  (at level 100, m at next level, right associativity).

(** [await websocket.send_json(m)] *)
Definition send_json (m : message) : M unit :=
  fun st => (Ok tt,
    {| websocket := ws_send m (websocket st); device := device st;
       attempted := attempted st; warnings := warnings st;
       invocations := invocations st |}).

(** [logger.warning(f'Batch size {batch_size} was too large, ...')] *)
Definition log_warning (batch_size : Z) : M unit :=
  fun st => (Ok tt,
    {| websocket := websocket st; device := device st;
       attempted := attempted st; warnings := warnings st ++ [batch_size];
       invocations := invocations st |}).

(** Ghost: the loop variable takes the value [batch_size]. *)
Definition note_attempt (batch_size : Z) : M unit :=
  fun st => (Ok tt,
    {| websocket := websocket st; device := device st;
       attempted := attempted st ++ [batch_size]; warnings := warnings st;
       invocations := invocations st |}).

(** [total_steps] of the callback of a full batch (lines 116-118). *)
Definition total_steps_full
    (num_batches last_batch_size total_batch_steps : Z) : Z :=
  let total_steps := num_batches * total_batch_steps in
  if py_truthy last_batch_size then total_steps + total_batch_steps
  else total_steps.

(** [total_steps] of the callback of the last batch (line 137). *)
Definition total_steps_last (num_batches total_batch_steps : Z) : Z :=
  (num_batches + 1) * total_batch_steps.

(** [progress_callback] of the [i]-th full batch (lines 114-122). *)
Definition progress_callback_full (i num_batches last_batch_size : Z)
    (batch_step total_batch_steps : Z) : M unit :=
  let current_step := i * total_batch_steps + batch_step in
  let total_steps :=
    total_steps_full num_batches last_batch_size total_batch_steps in
  progress <- lift (py_truediv current_step total_steps) ;;
  send_json (ProgressMessage progress).

(** [progress_callback] of the last, smaller batch (lines 135-141). *)
Definition progress_callback_last (num_batches : Z)
    (batch_step total_batch_steps : Z) : M unit :=
  let current_step := num_batches * total_batch_steps + batch_step in
  let total_steps := total_steps_last num_batches total_batch_steps in
  progress <- lift (py_truediv current_step total_steps) ;;
  send_json (ProgressMessage progress).

(** The pipeline awaits the callback once per report; an exception of
    the callback ends the call. *)
Fixpoint run_callbacks (progress_callback : Z -> Z -> M unit)
    (reports : list (Z * Z)) : M unit :=
  match reports with
  | [] => ret tt
  | (batch_step, total_batch_steps) :: reports' =>
      _ <- progress_callback batch_step total_batch_steps ;;
      run_callbacks progress_callback reports'
  end.

Definition outcome_result (o : pipeline_outcome) : result (list Image) :=
  match o with
  | Images new_images => Ok new_images
  | RaisesRuntimeError => Raise RuntimeError
  | RaisesOther name => Raise (OtherException name)
  end.

(** [await diffusion_method(prompt=..., progress_callback=..., **kwargs)] *)
Definition await_diffusion (c : call)
    (progress_callback : Z -> Z -> M unit) : M (list Image) :=
  fun st =>
    let '(inv, device') := diffusion_method (device st) c in
    let st1 :=
      {| websocket := websocket st; device := device';
         attempted := attempted st; warnings := warnings st;
         invocations := invocations st |} in
    match run_callbacks progress_callback (step_reports inv) st1 with
    | (Raise e, st2) => (Raise e, st2)
    | (Ok _, st2) =>
        (outcome_result (outcome inv),
         {| websocket := websocket st2; device := device st2;
            attempted := attempted st2; warnings := warnings st2;
            invocations := invocations st2 ++ [(c, outcome inv)] |})
    end.

Definition call_of (req : request) (kwargs : K) (prompts : list string)
    : call :=
  {| call_prompt := prompts;
     call_num_inference_steps := num_inference_steps req;
     call_generator := seed req;
     call_guidance_scale := guidance_scale req;
     call_kwargs := kwargs |}.

(** [for i in range(num_batches): ... images.extend(new_images)]
    (lines 113-132); [images] is the list built so far. *)
Fixpoint full_batches (req : request) (kwargs : K)
    (prompts : list string) (num_batches last_batch_size : Z)
    (indices : list Z) (images : list Image) : M (list Image) :=
  match indices with
  | [] => ret images
  | i :: indices' =>
      new_images <-
        await_diffusion (call_of req kwargs prompts)
          (progress_callback_full i num_batches last_batch_size) ;;
      full_batches req kwargs prompts num_batches last_batch_size
        indices' (images ++ new_images)
  end.

(** The body of the [try] for one value of [batch_size]
    (lines 108-151). *)
Definition attempt (req : request) (kwargs : K) (batch_size : Z)
    : M (list Image) :=
  num_batches <- lift (num_batches_of (num_variants req) batch_size) ;;
  let prompts := py_repeat (prompt req) batch_size in
  let last_batch_size :=
    last_batch_size_of (num_variants req) batch_size num_batches in
  images <-
    full_batches req kwargs prompts num_batches last_batch_size
      (py_range num_batches) [] ;;
  if py_truthy last_batch_size then
    new_images <-
      await_diffusion
        (call_of req kwargs (py_repeat (prompt req) last_batch_size))
        (progress_callback_last num_batches) ;;
    ret (images ++ new_images)
  else ret images.

(** The [for ... else] over the candidate batch sizes (lines 106-159):
    [break] on success; on [RuntimeError] either go on with the next
    candidate or raise [BatchSizeIsTooLargeException]; any other
    exception propagates; the [else] branch raises
    [AspectRatioTooWideException]. *)
Fixpoint search (req : request) (kwargs : K) (candidates : list Z)
    : M (list Image) :=
  match candidates with
  | [] => raise AspectRatioTooWideException
  | batch_size :: candidates' =>
      fun st =>
        match (_ <- note_attempt batch_size ;;
               attempt req kwargs batch_size) st with
        | (Ok images, st') => (Ok images, st')
        | (Raise RuntimeError, st') =>
            if try_smaller_batch_on_fail req then
              (_ <- log_warning batch_size ;;
               search req kwargs candidates') st'
            else (Raise (BatchSizeIsTooLargeException batch_size), st')
        | (Raise e, st') => (Raise e, st')
        end
  end.

(** [do_diffusion(request, diffusion_method, websocket, **kwargs)];
    the result is the [images] of the [ImageArrayResponse]. *)
Definition do_diffusion (req : request) (kwargs : K) : M (list Image) :=
  search req kwargs
    (py_range_down (Z.min (batch_size req) (num_variants req))).

End Scheduler.

Arguments request : clear implicits.
Arguments state : clear implicits.
Arguments call : clear implicits.
Arguments pipeline_outcome : clear implicits.
Arguments invocation : clear implicits.

(** ** The handshake: [authorize_web_socket] and [websocket_handler]
    (main.py, lines 40-72) *)

(** [status.WS_1008_POLICY_VIOLATION] *)
Definition WS_1008_POLICY_VIOLATION : Z := 1008.

Definition ws_accept (ws : WebSocket) : WebSocket :=
  {| accepted := true; inbound := inbound ws;
     sent := sent ws; closed := closed ws |}.

(** [await websocket.close(code, reason)] *)
Definition ws_close (code : Z) (reason : string) (ws : WebSocket)
    : WebSocket :=
  {| accepted := accepted ws; inbound := inbound ws;
     sent := sent ws; closed := Some (code, reason) |}.

Definition ws_consume (rest : list frame) (ws : WebSocket) : WebSocket :=
  {| accepted := accepted ws; inbound := rest;
     sent := sent ws; closed := closed ws |}.

(** [await websocket.receive_json()]: the next frame is taken off the
    connection. A connection with no frame left is one whose client is
    gone. *)
Definition receive_json (ws : WebSocket) : result json * WebSocket :=
  match inbound ws with
  | [] => (Raise WebSocketDisconnect, ws)
  | TextJson v :: rest => (Ok v, ws_consume rest ws)
  | TextNotJson :: rest => (Raise JSONDecodeError, ws_consume rest ws)
  | ClientDisconnect :: rest => (Raise WebSocketDisconnect, ws_consume rest ws)
  end.

(** [credentials.get(key)]: only a [dict] has the method. *)
Definition py_get (credentials : json) (key : string)
    : result (option json) :=
  match credentials with
  | JDict d => Ok (d !! key)
  | _ => Raise AttributeError
  end.

(** [v != s] for a string [s]; [None] stands for Python's [None]. *)
Definition py_ne_str (v : option json) (s : string) : bool :=
  match v with
  | Some (JStr s') => negb (String.eqb s' s)
  | _ => true
  end.

Section Handshake.

(** [settings.USERNAME] and [settings.PASSWORD]. *)
Variables USERNAME PASSWORD : string.

(** The [message] attribute of a [BaseWebSocketException]. *)
Variable message_of : exn -> string.

(** Modelled from the spec: [exceptions.py] is not among the sources;
    section 7 of the specification has the two domain errors of the
    scheduler close the connection with their own reason, so these two
    are the [BaseWebSocketException]s. *)
Definition is_BaseWebSocketException (e : exn) : bool :=
  match e with
  | BatchSizeIsTooLargeException _ | AspectRatioTooWideException => true
  | _ => false
  end.

(** The test of lines 42-43; [or] evaluates its second operand only
    when the first is false. *)
Definition credentials_rejected (credentials : json) : result bool :=
  match py_get credentials "username" with
  | Raise e => Raise e
  | Ok username =>
      if py_ne_str username USERNAME then Ok true
      else match py_get credentials "password" with
           | Raise e => Raise e
           | Ok password => Ok (py_ne_str password PASSWORD)
           end
  end.

Definition authorize_web_socket (ws : WebSocket) : result bool * WebSocket :=
  match receive_json ws with
  | (Raise e, ws1) => (Raise e, ws1)
  | (Ok credentials, ws1) =>
      match credentials_rejected credentials with
      | Raise e => (Raise e, ws1)
      | Ok true =>
          (Ok false,
           ws_close WS_1008_POLICY_VIOLATION "Authorization error" ws1)
      | Ok false => (Ok true, ws1)
      end
  end.

(** The [except] clauses of [wrapper] (lines 60-68). *)
Definition wrapper_except {H : Type} (e : exn) (ws : WebSocket) (h : H)
    : result unit * WebSocket * H :=
  if is_BaseWebSocketException e then
    (Ok tt, ws_close WS_1008_POLICY_VIOLATION (message_of e) ws, h)
  else
    match e with
    | JSONDecodeError =>
        (Ok tt,
         ws_close WS_1008_POLICY_VIOLATION
           "Server received message that is not in json format" ws, h)
    | WebSocketDisconnect => (Ok tt, ws, h)
    | _ => (Raise e, ws, h)
    end.

(** [wrapper] of [websocket_handler(path, app)(handler)]; [H] is the
    state the endpoint's [handler] works on besides the connection. *)
Definition websocket_handler {H : Type}
    (handler : WebSocket -> H -> result unit * WebSocket * H)
    (ws : WebSocket) (h : H) : result unit * WebSocket * H :=
  let ws0 := ws_accept ws in
  match authorize_web_socket ws0 with
  | (Raise e, ws1) => wrapper_except e ws1 h
  | (Ok false, ws1) => (Ok tt, ws1, h)
  | (Ok true, ws1) =>
      match handler ws1 h with
      | (Ok _, ws2, h2) => (Ok tt, ws2, h2)
      | (Raise e, ws2, h2) => wrapper_except e ws2 h2
      end
  end.

End Handshake.

(** ** The masks of the [inpainting] endpoint (main.py, lines 219-245) *)

(** A tensor by its elements, in a fixed order. *)
Definition tensor : Type := list Q.

(** [1 - t] *)
Definition tensor_one_minus (t : tensor) : tensor :=
  (fun x => 1 - x)%Q <$> t.

(** [t.any()] *)
Definition tensor_any (t : tensor) : bool :=
  existsb (fun x => negb (Qeq_bool x 0)) t.

(** [torch.max(a, b)], element by element. *)
Definition tensor_max (a b : tensor) : tensor :=
  zip_with (fun x y => if Qle_bool x y then y else x) a b.

(** Truth value of an [Optional[str]] in [if request.mask:]. *)
Definition py_truthy_str (s : option string) : bool :=
  match s with
  | Some (String _ _) => true
  | _ => false
  end.

Section Inpainting.

(** PIL images and the helpers of [utils.py] and
    [universal_pipeline.py], none of them part of [main.py]. *)
Context {PILImage Size : Type}.
Variable mode : PILImage -> string.
Variable getchannel : PILImage -> string -> PILImage.
Variable resize : PILImage -> Size -> PILImage.
Variable base64url_to_image : string -> PILImage.
Variable preprocess_mask : PILImage -> tensor.

(** Lines 229-230 and 238-239: a tensor with no non-zero element is
    replaced by [None]. *)
Definition none_if_empty (t : option tensor) : option tensor :=
  match t with
  | Some t' => if tensor_any t' then Some t' else None
  | None => None
  end.

(** [preprocessed_mask] after lines 219-230. *)
Definition explicit_mask (request_mask : option string) (size : Size)
    : option tensor :=
  let mask :=
    if py_truthy_str request_mask
    then (fun s => resize (base64url_to_image s) size) <$> request_mask
    else None in
  none_if_empty (preprocess_mask <$> mask).

(** The tensor computed on lines 234-236. *)
Definition alpha_derived (source_image : PILImage) : tensor :=
  tensor_one_minus (preprocess_mask (getchannel source_image "A")).

(** [preprocessed_alpha] after lines 232-239. *)
Definition alpha_mask (source_image : PILImage) : option tensor :=
  none_if_empty
    (if String.eqb (mode source_image) "RGBA"
     then Some (alpha_derived source_image) else None).

(** Lines 241-245. *)
Definition combine_masks
    (preprocessed_mask preprocessed_alpha : option tensor)
    : option tensor :=
  match preprocessed_alpha with
  | Some alpha =>
      match preprocessed_mask with
      | Some m => Some (tensor_max m alpha)
      | None => Some alpha
      end
  | None => preprocessed_mask
  end.

(** The [mask=] and [alpha=] arguments [inpainting] passes to
    [do_diffusion]; [source_image] is the resized source. *)
Definition inpainting_masks (source_image : PILImage)
    (request_mask : option string) (size : Size)
    : option tensor * option tensor :=
  let preprocessed_mask := explicit_mask request_mask size in
  let preprocessed_alpha := alpha_mask source_image in
  (combine_masks preprocessed_mask preprocessed_alpha, preprocessed_alpha).

End Inpainting.

(** ** Sample pipelines and inputs *)

(** The reports of a pipeline that calls back with
    [(0, total), ..., (total - 1, total)]. *)
Definition step_reports_of (total : Z) : list (Z * Z) :=
  (fun s => (s, total)) <$> py_range total.

(** A device that holds at most [capacity] images at once. A call within
    capacity reports every step and returns one numbered image per
    prompt; a larger one reports its first [warmup] steps and raises
    [RuntimeError]. The state is the number of images made so far. *)
Definition toy_pipeline (capacity : Z) (warmup : nat)
    (next_id : nat) (c : call unit) : invocation nat * nat :=
  let n := length (call_prompt c) in
  let reports := step_reports_of (call_num_inference_steps c) in
  if Z.of_nat n <=? capacity
  then (mkInvocation reports (Images (seq next_id n)), (next_id + n)%nat)
  else (mkInvocation (take warmup reports) RaisesRuntimeError, next_id).

Definition fresh_socket (frames : list frame) : WebSocket :=
  {| accepted := false; inbound := frames; sent := []; closed := None |}.

Definition toy_state : state nat nat unit :=
  {| websocket := ws_accept (fresh_socket []); device := 0%nat;
     attempted := []; warnings := []; invocations := [] |}.

Definition toy_request (num_variants batch_size steps : Z)
    (try_smaller : bool) : request :=
  {| prompt := "a lighthouse"; seed := None;
     num_variants := num_variants; batch_size := batch_size;
     num_inference_steps := steps; guidance_scale := (15 # 2)%Q;
     try_smaller_batch_on_fail := try_smaller |}.

(** A sample image: its mode and its pixel values, already scaled to
    [[0, 1]]; the mask string is decoded one pixel per character. *)
Definition toy_image : Type := string * tensor.
Definition toy_mode (img : toy_image) : string := img.1.
Definition toy_getchannel (img : toy_image) (name : string) : toy_image :=
  ("L"%string, img.2).
Definition toy_resize (img : toy_image) (size : unit) : toy_image := img.
Definition toy_decode (s : string) : toy_image :=
  ("L"%string,
   (fun c => if Ascii.eqb c "0"%char then 0%Q else 1%Q)
     <$> String.list_ascii_of_string s).
Definition toy_preprocess_mask (img : toy_image) : tensor := img.2.

(** The candidates from [start] down to [stop], in steps of 1:
    [start, start - 1, ..., stop]. *)
Definition countdown (start stop : Z) : list Z :=
  (fun k : nat => start - Z.of_nat k) <$> seq 0 (Z.to_nat (start - stop + 1)).

(** ** Vocabulary of the statements *)

Section Vocabulary.

Context {W Image K : Type}.
Variable diffusion_method : W -> call K -> invocation Image * W.

Abbreviation St := (state W Image K).
Abbreviation Cb := (Z -> Z -> @M W Image K unit).

(** A callback that only sends: it leaves the device, the traces and
    the log alone, and raises nothing but [ZeroDivisionError]. *)
Definition only_sends (cb : Cb) : Prop :=
  forall s T st r st', cb s T st = (r, st') ->
    device st' = device st /\ attempted st' = attempted st /\
    warnings st' = warnings st /\ invocations st' = invocations st /\
    (r = Ok tt \/ r = Raise ZeroDivisionError).

(** How a failed call shows in the log: [tail] is what the call adds
    to [invocations] when it raises [e]. *)
Definition failed_call (c : call K) (e : exn)
    (tail : list (call K * pipeline_outcome Image)) : Prop :=
  (tail = [] /\ e = ZeroDivisionError) \/
  (tail = [(c, RaisesRuntimeError)] /\ e = RuntimeError) \/
  (exists name, tail = [(c, RaisesOther name)] /\ e = OtherException name).

(** [new_images] is what some call [c] of the pipeline returned. *)
Definition returned_by (c : call K) (new_images : list Image) : Prop :=
  exists w, outcome (diffusion_method w c).1 = Images new_images.

(** The log entries of completed full batches. *)
Definition completed (c : call K) (batches : list (list Image))
    : list (call K * pipeline_outcome Image) :=
  (fun new_images => (c, Images new_images)) <$> batches.

(** The state in which the [try] body of candidate [b] starts. *)
Definition entering (b : Z) (st : St) : St := (note_attempt b st).2.

(** Candidate [b] signalled resource exhaustion in some state. *)
Definition exhausted_at req kwargs (b : Z) : Prop :=
  exists s s' : St,
    attempt diffusion_method req kwargs b s = (Raise RuntimeError, s').

(** What the loop makes of the outcome [r_b] of its last attempt. *)
Definition escalate req (b : Z) (r_b r : result (list Image)) : Prop :=
  match r_b with
  | Ok images => r = Ok images
  | Raise RuntimeError =>
      try_smaller_batch_on_fail req = false /\
      r = Raise (BatchSizeIsTooLargeException b)
  | Raise e => r = Raise e
  end.

(** What one run of the loop over [candidates] from [st] may end in:
    [failed] are the candidates that were given up for a smaller one. *)
Definition search_outcome req kwargs (candidates : list Z) (st : St)
    (r : result (list Image)) (st' : St) (failed : list Z) : Prop :=
  Forall (exhausted_at req kwargs) failed /\
  (failed <> [] -> try_smaller_batch_on_fail req = true) /\
  warnings st' = warnings st ++ failed /\
  ((r = Raise AspectRatioTooWideException /\ candidates = failed /\
    attempted st' = attempted st ++ failed) \/
   (exists b rest st_b r_b,
      candidates = failed ++ b :: rest /\
      attempted st' = attempted st ++ failed ++ [b] /\
      attempt diffusion_method req kwargs b st_b = (r_b, st') /\
      (failed = [] -> st_b = entering b st) /\
      escalate req b r_b r)).

(** The pipeline returns one image per prompt. *)
Definition one_image_per_prompt : Prop :=
  forall w c new_images,
    outcome (diffusion_method w c).1 = Images new_images ->
    length new_images = length (call_prompt c).

(** The progress fractions sent so far. *)
Definition progress_log (st : St) : list Q :=
  progress_values (sent (websocket st)).

(** The fraction sent at step [s] of [T] of batch number [i] out of
    [N] batches. *)
Definition progress_of (i N s T : Z) : Q :=
  (inject_Z (i * T + s) / inject_Z (N * T))%Q.

(** Where the fractions of batch number [i] start: [i / N]. *)
Definition batch_start (i N : Z) : Q := (inject_Z i / inject_Z N)%Q.

(** One call's reports are in order: [0 <= batch_step <
    total_batch_steps] in each, and [batch_step / total_batch_steps]
    does not decrease from one report to the next. *)
Definition report_le (x y : Z * Z) : Prop := x.1 * y.2 <= y.1 * x.2.

Definition reports_in_order (reports : list (Z * Z)) : Prop :=
  Forall (fun x => 0 <= x.1 < x.2) reports /\ Sorted report_le reports.

(** A non-decreasing run of fractions, all in [[lo, hi)]. *)
Definition run_within (lo hi : Q) (ps : list Q) : Prop :=
  Sorted Qle ps /\ Forall (fun p => lo <= p /\ p < hi)%Q ps.

(** Assumptions on the pipeline, for the calls a request makes. *)
Definition calls_report_positive req kwargs : Prop :=
  forall w prompts,
    Forall (fun x => 1 <= x.2)
      (step_reports (diffusion_method w (call_of req kwargs prompts)).1).

Definition calls_report_in_order req kwargs : Prop :=
  forall w prompts,
    reports_in_order
      (step_reports (diffusion_method w (call_of req kwargs prompts)).1).

(** The callback [cb] never fails on a positive total, and sends
    [value s T]. *)
Definition emits (cb : Cb) (value : Z -> Z -> Q) : Prop :=
  forall s T st, 1 <= T ->
    exists st1, cb s T st = (Ok tt, st1) /\
                device st1 = device st /\
                progress_log st1 = progress_log st ++ [value s T].

End Vocabulary.

(** ** Vocabulary of the statements about whole runs *)

(** The connection [ws'] is [ws] with progress messages appended to what
    was sent: nothing was read, nothing else was sent, and it was not
    closed. *)
Definition only_progress_sent (ws ws' : WebSocket) : Prop :=
  accepted ws' = accepted ws /\ inbound ws' = inbound ws /\
  closed ws' = closed ws /\
  exists ps, sent ws' = sent ws ++ (ProgressMessage <$> ps).

Section RunVocabulary.

Context {W Image K : Type}.

(** The call [c] is one a run for [req] may make: the request's prompt
    [k] times, for some [k] from 1 to [min(batch_size, num_variants)],
    with the request's steps, seed and guidance scale and the endpoint's
    keyword arguments. *)
Definition call_within (req : request) (kwargs : K) (c : call K) : Prop :=
  exists k,
    1 <= k <= Z.min (batch_size req) (num_variants req) /\
    c = call_of req kwargs (py_repeat (prompt req) k).

(** A callback that leaves the connection as it was but for progress
    messages. *)
Definition sends_progress (cb : Z -> Z -> @M W Image K unit) : Prop :=
  forall s T st r st', cb s T st = (r, st') ->
    only_progress_sent (websocket st) (websocket st').

(** What a run adds to the log, and how a failure of the pipeline that
    is not a [RuntimeError] shows in it and in the result. *)
Definition log_of_run (req : request) (kwargs : K)
    (new : list (call K * pipeline_outcome Image))
    (r : result (list Image)) : Prop :=
  Forall (fun x => call_within req kwargs x.1) new /\
  (forall c name, (c, RaisesOther name) ∈ new ->
     r = Raise (OtherException name) /\
     exists before, new = before ++ [(c, RaisesOther name)]) /\
  (forall name, r = Raise (OtherException name) ->
     exists c before, new = before ++ [(c, RaisesOther name)]).

End RunVocabulary.

(** ** The synchronous endpoints (main.py, lines 35-37 and 298-313) *)

(** How a request to a synchronous endpoint ends: with a response, with
    an [HTTPException] the endpoint raised (status code and detail), or
    with another exception leaving the endpoint. *)
Inductive http_result (A : Type) : Type :=
| Responds (a : A)
| HTTPException (status_code : Z) (detail : option string)
| Fails (e : exn).
Arguments Responds {A} a.
Arguments HTTPException {A} status_code detail.
Arguments Fails {A} e.

(** [status.HTTP_401_UNAUTHORIZED], [status.HTTP_400_BAD_REQUEST] *)
Definition HTTP_401_UNAUTHORIZED : Z := 401.
Definition HTTP_400_BAD_REQUEST : Z := 400.

(** [authorize(credentials)] (lines 35-37), for the configured
    [USERNAME] and [PASSWORD] and the username and password of the
    [HTTPBasicCredentials]. *)
Definition authorize (USERNAME PASSWORD username password : string)
    : http_result unit :=
  if negb (String.eqb username USERNAME) || negb (String.eqb password PASSWORD)
  then HTTPException HTTP_401_UNAUTHORIZED None
  else Responds tt.

Section Upscale.

(** Images by their size, and the helpers of [utils.py] and
    [esrgan_upscaler.py], none of them part of [main.py]. Each may
    raise. *)
Context {Img Model : Type}.
Variable width height : Img -> Z.
Variable base64url_to_image : string -> result Img.
Variable image_to_base64url : Img -> string.
Variable esrgan_upscale : Img -> Model -> result Img.
Variable resize : Img -> Z * Z -> result Img.

(** [UpscaleRequest], by the fields [upscale] reads. *)
Record UpscaleRequest : Type := mkUpscaleRequest {
  up_image : string;
  up_target_width : Z;
  up_target_height : Z;
  up_maximize : bool;
  up_model : Model
}.

(** The [while] loop of lines 302-304, run for at most [fuel] tests of
    its condition; [None] when they do not suffice. *)
Fixpoint upscale_while (fuel : nat) (req : UpscaleRequest)
    (source_image : Img) : option (result Img) :=
  match fuel with
  | O => None
  | S fuel' =>
      if (width source_image <? up_target_width req)
         || (height source_image <? up_target_height req)
      then
        match esrgan_upscale source_image (up_model req) with
        | Ok source_image' => upscale_while fuel' req source_image'
        | Raise e => Some (Raise e)
        end
      else Some (Ok source_image)
  end.

(** The [except RuntimeError] clause of lines 310-313. *)
Definition upscale_except {A} (e : exn) : http_result A :=
  match e with
  | RuntimeError =>
      HTTPException HTTP_400_BAD_REQUEST
        (Some "Scaling factor or image is too large"%string)
  | _ => Fails e
  end.

(** [upscale(request)] (lines 298-313); the response is the [image] of
    the [ImageResponse]. *)
Definition upscale (fuel : nat) (req : UpscaleRequest)
    : option (http_result string) :=
  match base64url_to_image (up_image req) with
  | Raise e => Some (upscale_except e)
  | Ok source_image =>
      match upscale_while fuel req source_image with
      | None => None
      | Some (Raise e) => Some (upscale_except e)
      | Some (Ok source_image) =>
          if negb (up_maximize req) then
            match resize source_image
                    (up_target_width req, up_target_height req) with
            | Raise e => Some (upscale_except e)
            | Ok source_image =>
                Some (Responds (image_to_base64url source_image))
            end
          else Some (Responds (image_to_base64url source_image))
      end
  end.

End Upscale.

Arguments UpscaleRequest : clear implicits.

(** A sample upscaler on images that are their size: four times the
    width and the height, and [RuntimeError] beyond [limit] pixels. *)
Definition toy_upscale (limit : Z) (img : Z * Z) (model : unit)
    : result (Z * Z) :=
  if limit <? (4 * img.1) * (4 * img.2) then Raise RuntimeError
  else Ok (4 * img.1, 4 * img.2).

(** A sample decoder: the string's length is the side of a square. *)
Definition toy_square (s : string) : result (Z * Z) :=
  Ok (Z.of_nat (String.length s), Z.of_nat (String.length s)).

Definition toy_encode (img : Z * Z) : string :=
  if img.1 <? img.2 then "portrait" else "landscape".

Definition toy_resize_to (img : Z * Z) (size : Z * Z) : result (Z * Z) :=
  Ok size.

Section UpscaleVocabulary.

Context {Img Model : Type}.
Variable width height : Img -> Z.
Variable esrgan_upscale : Img -> Model -> result Img.

(** The upscaler, when it returns, returns a wider and higher image for
    an image of positive size. *)
Definition upscaler_enlarges : Prop :=
  forall img model img',
    1 <= width img -> 1 <= height img ->
    esrgan_upscale img model = Ok img' ->
    width img < width img' /\ height img < height img'.

(** How many pixels of width and of height [img] lacks. *)
Definition shortfall (req : UpscaleRequest Model) (img : Img) : nat :=
  (Z.to_nat (up_target_width req - width img)
   + Z.to_nat (up_target_height req - height img))%nat.

End UpscaleVocabulary.

(** ** The [text_to_image] endpoint (main.py, lines 166-175) *)

(** The connection [ws'] is [ws] after some frames were read and
    [messages] were sent; it was not closed. *)
Definition exchanged (messages : list message) (ws ws' : WebSocket) : Prop :=
  accepted ws' = accepted ws /\ closed ws' = closed ws /\
  sent ws' = sent ws ++ messages.

Section TextToImage.

(** [Extra]: the fields of a [TextToImageRequest] besides those of the
    [BaseImageGenerationRequest] ([aspect_ratio], [scaling_mode]). The
    keyword arguments of the pipeline are [(height, width)]. *)
Context {W Image Extra : Type}.
Variables USERNAME PASSWORD : string.
Variable message_of : exn -> string.

(** [pipeline.text_to_image] *)
Variable pipeline_text_to_image :
  W -> call (Z * Z) -> invocation Image * W.
(** [TextToImageRequest] applied to the message, the validation of
    [request_models.py] *)
Variable TextToImageRequest : json -> result (request * Extra).
(** [size_from_aspect_ratio(aspect_ratio, scaling_mode)] of [utils.py];
    it returns [(width, height)]. *)
Variable size_from_aspect_ratio : Extra -> result (Z * Z).
(** [json.loads(response.json())] for the [ImageArrayResponse] *)
Variable response_json : list Image -> json.

Definition with_websocket (ws : WebSocket) (st : state W Image (Z * Z))
    : state W Image (Z * Z) :=
  {| websocket := ws; device := device st; attempted := attempted st;
     warnings := warnings st; invocations := invocations st |}.

(** [await websocket.receive_json()] inside a handler. *)
Definition receive_request : @M W Image (Z * Z) json :=
  fun st =>
    let '(r, ws') := receive_json (websocket st) in
    (r, with_websocket ws' st).

(** The handler [text_to_image(websocket)]. *)
Definition text_to_image : @M W Image (Z * Z) unit :=
  bind receive_request (fun v =>
  bind (lift (TextToImageRequest v)) (fun parsed =>
  bind (lift (size_from_aspect_ratio parsed.2)) (fun size =>
  bind (do_diffusion pipeline_text_to_image parsed.1 (size.2, size.1))
    (fun images =>
  send_json (FinishedMessage (response_json images)))))).

(** A handler as [websocket_handler] takes it: it works on the
    connection it is given, with the rest of the state. *)
Definition on_connection (handler : @M W Image (Z * Z) unit)
    (ws : WebSocket) (st : state W Image (Z * Z))
    : result unit * WebSocket * state W Image (Z * Z) :=
  let '(r, st') := handler (with_websocket ws st) in
  (r, websocket st', st').

(** [text_to_image] as registered by
    [@websocket_handler('/text_to_image', app)]. *)
Definition text_to_image_endpoint (ws : WebSocket)
    (st : state W Image (Z * Z))
    : result unit * WebSocket * state W Image (Z * Z) :=
  websocket_handler USERNAME PASSWORD message_of
    (on_connection text_to_image) ws st.

End TextToImage.

(** A sample validation: an object with integers [num_variants] and
    [batch_size] and a boolean [try_smaller_batch_on_fail]. *)
Definition toy_TextToImageRequest (v : json) : result (request * unit) :=
  match v with
  | JDict d =>
      match d !! "num_variants", d !! "batch_size",
            d !! "try_smaller_batch_on_fail" with
      | Some (JInt n), Some (JInt b), Some (JBool t) =>
          Ok (toy_request n b 2 t, ())
      | _, _, _ => Raise (OtherException "ValidationError")
      end
  | _ => Raise (OtherException "TypeError")
  end.

Definition toy_size (extra : unit) : result (Z * Z) := Ok (512, 512).

Definition toy_response_json (images : list nat) : json :=
  JList ((fun i => JInt (Z.of_nat i)) <$> images).

(** [toy_pipeline] for the keyword arguments of [text_to_image]. *)
Definition toy_text_to_image (capacity : Z) (warmup : nat)
    (next_id : nat) (c : call (Z * Z)) : invocation nat * nat :=
  let n := length (call_prompt c) in
  let reports := step_reports_of (call_num_inference_steps c) in
  if Z.of_nat n <=? capacity
  then (mkInvocation reports (Images (seq next_id n)), (next_id + n)%nat)
  else (mkInvocation (take warmup reports) RaisesRuntimeError, next_id).

Definition toy_session : state nat nat (Z * Z) :=
  {| websocket := fresh_socket []; device := 0%nat;
     attempted := []; warnings := []; invocations := [] |}.

Definition toy_credentials : json :=
  JDict (<["username" := JStr "admin"]> (<["password" := JStr "secret"]> ∅)).

Definition toy_message (num_variants batch_size : Z) (try_smaller : bool)
    : json :=
  JDict (<["num_variants" := JInt num_variants]>
           (<["batch_size" := JInt batch_size]>
              (<["try_smaller_batch_on_fail" := JBool try_smaller]> ∅))).

(** The message of a domain error, for the samples. *)
Definition toy_message_of (e : exn) : string :=
  match e with
  | BatchSizeIsTooLargeException _ => "Batch size is too large"
  | AspectRatioTooWideException => "Aspect ratio is too wide"
  | _ => ""
  end.

Section RetryVocabulary.

Context {W Image K : Type}.
Variable diffusion_method : W -> call K -> invocation Image * W.



End RetryVocabulary.

(** ** Theorems *)

Lemma py_range_down_elem (start b : Z) :
  b ∈ py_range_down start <-> 1 <= b <= start.
Proof.
  unfold py_range_down. rewrite list_elem_of_fmap. split.
  - intros (k & -> & Hk). apply elem_of_seq in Hk. lia.
  - intros Hb. exists (Z.to_nat (start - b)). split; [lia|].
    apply elem_of_seq. lia.
Qed.

(** *** Candidate lists *)

Lemma py_range_down_countdown (start : Z) :
  py_range_down start = countdown start 1.
Proof. unfold py_range_down, countdown. do 2 f_equal. lia. Qed.

Lemma seq_split (a n : nat) (l1 l2 : list nat) :
  seq a n = l1 ++ l2 ->
  l1 = seq a (length l1) /\ l2 = seq (a + length l1) (n - length l1)
  /\ (length l1 <= n)%nat.
Proof.
  revert a l1. induction n as [|n IH]; intros a l1 Heq; simpl in Heq.
  - symmetry in Heq. apply app_eq_nil in Heq as [-> ->]. simpl. auto with lia.
  - destruct l1 as [|x l1]; simpl in *.
    + subst l2. rewrite Nat.add_0_r. simpl. auto with lia.
    + injection Heq as <- Heq. apply IH in Heq as (H1 & H2 & H3).
      rewrite <- H1.
      replace (a + S (length l1))%nat with (S a + length l1)%nat by lia.
      auto with lia.
Qed.

Lemma countdown_split (start stop : Z) (failed rest : list Z) (b : Z) :
  countdown start stop = failed ++ b :: rest ->
  stop <= b <= start /\ failed = countdown start (b + 1)
  /\ failed ++ [b] = countdown start b.
Proof.
  unfold countdown. intros Heq.
  apply fmap_app_inv in Heq as (l1 & l2 & -> & Hb & Hseq).
  destruct l2 as [|k l2]; [discriminate|]. injection Hb as -> ->.
  apply seq_split in Hseq as (H1 & H2 & Hlen).
  assert (length l1 < Z.to_nat (start - stop + 1))%nat as Hlt.
  { destruct (Z.to_nat (start - stop + 1) - length l1)%nat eqn:E;
      [discriminate|lia]. }
  replace (Z.to_nat (start - stop + 1) - length l1)%nat
    with (S (Z.to_nat (start - stop + 1) - length l1 - 1)) in H2 by lia.
  simpl in H2. injection H2 as -> _. simpl.
  split; [lia|].
  replace (Z.to_nat (start - (start - Z.of_nat (length l1)) + 1))
    with (S (length l1)) by lia.
  replace (Z.to_nat (start - (start - Z.of_nat (length l1) + 1) + 1))
    with (length l1) by lia.
  split; [by rewrite <- H1|].
  rewrite seq_S, fmap_app. simpl. by rewrite <- H1.
Qed.

Lemma countdown_first (start stop : Z) :
  stop <= start -> countdown start stop = start :: countdown (start - 1) stop.
Proof.
  intros H. unfold countdown.
  replace (Z.to_nat (start - stop + 1))
    with (S (Z.to_nat (start - 1 - stop + 1))) by lia.
  simpl. rewrite Z.sub_0_r. f_equal.
  rewrite <- fmap_S_seq, <- list_fmap_compose.
  apply list_fmap_ext. intros _ k _. simpl. lia.
Qed.

(** C2: for [1 <= b <= n] the plan of candidate [b] has
    [num_batches = n div b], [last_batch_size = n - b * num_batches],
    covers [n] exactly and leaves a remainder in [0, b). *)
Theorem batch_plan_covers (n b : Z) :
  1 <= n -> 1 <= b <= n ->
  exists num_batches,
    num_batches_of n b = Ok num_batches /\
    num_batches = n / b /\
    last_batch_size_of n b num_batches = n - b * num_batches /\
    num_batches * b + last_batch_size_of n b num_batches = n /\
    0 <= last_batch_size_of n b num_batches < b.
Proof.
  intros Hn Hb. exists (n / b).
  unfold num_batches_of, py_floordiv, last_batch_size_of.
  destruct (Z.eqb_spec b 0) as [->|_]; [lia|].
  repeat split; try lia.
  - pose proof (Z.mul_div_le n b). lia.
  - pose proof (Z.mod_pos_bound n b). rewrite Z.mod_eq in * by lia. lia.
Qed.

(** *** Quotients of integers as rationals *)

Lemma Qdiv_Z_le (a b c d : Z) :
  0 < b -> 0 < d ->
  (inject_Z a / inject_Z b <= inject_Z c / inject_Z d)%Q <-> a * d <= c * b.
Proof.
  intros Hb Hd. destruct b as [|b|b]; try lia. destruct d as [|d|d]; try lia.
  unfold Qle, Qdiv, Qmult, Qinv, inject_Z. simpl.
  by rewrite !Z.mul_1_r, !Pos.mul_1_l.
Qed.

Lemma Qdiv_Z_lt (a b c d : Z) :
  0 < b -> 0 < d ->
  (inject_Z a / inject_Z b < inject_Z c / inject_Z d)%Q <-> a * d < c * b.
Proof.
  intros Hb Hd. destruct b as [|b|b]; try lia. destruct d as [|d|d]; try lia.
  unfold Qlt, Qdiv, Qmult, Qinv, inject_Z. simpl.
  by rewrite !Z.mul_1_r, !Pos.mul_1_l.
Qed.

Lemma Sorted_app_between {A} (R : A -> A -> Prop) (l1 l2 : list A) :
  Sorted R l1 -> Sorted R l2 ->
  (forall x y, x ∈ l1 -> y ∈ l2 -> R x y) ->
  Sorted R (l1 ++ l2).
Proof.
  intros H1 H2. induction H1 as [|a l1 _ IH Hhd]; intros H; simpl; [done|].
  constructor.
  - apply IH. intros x y Hx Hy. apply H; [by right|done].
  - destruct Hhd as [|x l1 Hax]; simpl.
    + destruct l2 as [|y l2]; constructor. apply H; left.
    + by constructor.
Qed.

(** *** The scheduler: what a run leaves untouched *)

Section SchedulerFacts.

Context {W Image K : Type}.
Variable diffusion_method : W -> call K -> invocation Image * W.

Abbreviation St := (state W Image K).
Abbreviation Cb := (Z -> Z -> @M W Image K unit).

Lemma progress_callback_full_only_sends i nb last :
  only_sends (progress_callback_full i nb last : Cb).
Proof.
  intros s T st r st'.
  unfold progress_callback_full, bind, lift, send_json, py_truediv.
  destruct (_ =? 0); intros [= <- <-]; simpl; auto 10.
Qed.

Lemma progress_callback_last_only_sends nb :
  only_sends (progress_callback_last nb : Cb).
Proof.
  intros s T st r st'.
  unfold progress_callback_last, bind, lift, send_json, py_truediv.
  destruct (_ =? 0); intros [= <- <-]; simpl; auto 10.
Qed.

Lemma run_callbacks_only_sends (cb : Cb) reports :
  only_sends cb -> only_sends (fun _ _ => run_callbacks cb reports).
Proof.
  intros Hcb _ _. induction reports as [|[s T] reports IH]; intros st r st'.
  - intros [= <- <-]. auto 10.
  - simpl. unfold bind at 1. destruct (cb s T st) as [r1 st1] eqn:E1.
    apply Hcb in E1 as (Hd & Ha & Hw & Hi & [-> | ->]).
    + intros E2. apply IH in E2 as (? & ? & ? & ? & ?).
      repeat split; congruence.
    + intros [= <- <-]. auto 10.
Qed.

Lemma await_diffusion_spec (c : call K) (cb : Cb) st r st' :
  only_sends cb ->
  await_diffusion diffusion_method c cb st = (r, st') ->
  attempted st' = attempted st /\ warnings st' = warnings st /\
  match r with
  | Ok new_images =>
      invocations st' = invocations st ++ [(c, Images new_images)] /\
      outcome (diffusion_method (device st) c).1 = Images new_images
  | Raise e =>
      exists tail, invocations st' = invocations st ++ tail /\
                   failed_call c e tail
  end.
Proof.
  intros Hcb. unfold await_diffusion.
  destruct (diffusion_method (device st) c) as [inv device'] eqn:Ed.
  destruct (run_callbacks cb (step_reports inv) _) as [r1 st1] eqn:E1.
  apply (run_callbacks_only_sends cb _ Hcb 0 0) in E1
    as (Hd & Ha & Hw & Hi & Hr). simpl in *.
  destruct r1 as [[]|e1].
  - intros [= <- <-]. simpl. repeat split; try congruence.
    destruct (outcome inv) eqn:Eo; simpl.
    + split; congruence.
    + exists [(c, RaisesRuntimeError)]. split; [congruence|].
      right; left; auto.
    + exists [(c, RaisesOther name)]. split; [congruence|].
      right; right; eauto.
  - intros [= <- <-]. destruct Hr as [|[= ->]]; [discriminate|].
    repeat split; try congruence.
    exists []. rewrite app_nil_r. split; [congruence|]. left; auto.
Qed.

Lemma full_batches_spec req kwargs prompts nb last indices images st r st' :
  full_batches diffusion_method req kwargs prompts nb last indices images st
    = (r, st') ->
  attempted st' = attempted st /\ warnings st' = warnings st /\
  exists batches,
    let c := call_of req kwargs prompts in
    match r with
    | Ok all_images =>
        all_images = images ++ concat batches /\
        length batches = length indices /\
        Forall (returned_by diffusion_method c) batches /\
        invocations st' = invocations st ++ completed c batches
    | Raise e =>
        exists tail,
          invocations st' = invocations st ++ completed c batches ++ tail /\
          failed_call c e tail
    end.
Proof.
  revert images st. induction indices as [|i indices IH]; intros images st.
  - intros [= <- <-]. repeat split. exists []. simpl.
    rewrite !app_nil_r. auto.
  - simpl. unfold bind at 1.
    destruct (await_diffusion _ _ _ st) as [r1 st1] eqn:E1.
    apply await_diffusion_spec in E1 as (Ha & Hw & Hr);
      [|apply progress_callback_full_only_sends].
    destruct r1 as [new_images|e].
    + intros E2. apply IH in E2 as (Ha2 & Hw2 & batches & Hb).
      repeat split; try congruence.
      exists (new_images :: batches). simpl in *.
      destruct Hr as [Hr Hret]. destruct r as [all_images|e].
      * destruct Hb as (-> & -> & Hall & ->). rewrite Hr.
        rewrite <- !app_assoc. repeat split; auto.
        constructor; [by exists (device st)|done].
      * destruct Hb as (tail & -> & Ht). exists tail.
        rewrite Hr. by rewrite <- !app_assoc.
    + intros [= <- <-]. repeat split; try congruence.
      exists []. simpl. destruct Hr as (tail & -> & Ht). eauto.
Qed.

Lemma attempt_spec req kwargs b st r st' :
  attempt diffusion_method req kwargs b st = (r, st') ->
  attempted st' = attempted st /\ warnings st' = warnings st /\
  let nb := num_variants req / b in
  let last := num_variants req - b * nb in
  let c_full := call_of req kwargs (py_repeat (prompt req) b) in
  let c_last := call_of req kwargs (py_repeat (prompt req) last) in
  match r with
  | Ok images =>
      b <> 0 /\
      exists batches remainder,
        images = concat batches ++ remainder /\
        length batches = Z.to_nat nb /\
        Forall (returned_by diffusion_method c_full) batches /\
        (if py_truthy last then returned_by diffusion_method c_last remainder
         else remainder = []) /\
        invocations st' =
          invocations st ++ completed c_full batches ++
          (if py_truthy last then [(c_last, Images remainder)] else [])
  | Raise e =>
      exists done tail c,
        invocations st' = invocations st ++ done ++ tail /\
        Forall (fun x => exists l, x.2 = Images l) done /\
        failed_call c e tail
  end.
Proof.
  unfold attempt, num_batches_of, py_floordiv, last_batch_size_of.
  unfold bind at 1. unfold lift at 1.
  destruct (Z.eqb_spec b 0) as [->|Hb].
  { intros [= <- <-]. repeat split.
    exists [], [], (call_of req kwargs []). rewrite !app_nil_r.
    repeat split; auto. left; auto. }
  unfold bind at 1.
  destruct (full_batches _ _ _ _ _ _ _ _ st) as [r1 st1] eqn:E1.
  apply full_batches_spec in E1 as (Ha & Hw & batches & Hr).
  simpl in Hr. destruct r1 as [images|e].
  - destruct Hr as (-> & Hlen & Hall & Hi). simpl in *.
    unfold py_range in Hlen. rewrite length_fmap, length_seq in Hlen.
    destruct (py_truthy _) eqn:Ht.
    + unfold bind at 1.
      destruct (await_diffusion _ _ _ st1) as [r2 st2] eqn:E2.
      apply await_diffusion_spec in E2 as (Ha2 & Hw2 & Hr2);
        [|apply progress_callback_last_only_sends].
      destruct r2 as [new_images|e]; intros [= <- <-].
      * repeat split; try congruence.
        exists batches, new_images. destruct Hr2 as [Hi2 Hret].
        repeat split; auto.
        -- by exists (device st1).
        -- rewrite Hi2, Hi. by rewrite <- app_assoc.
      * repeat split; try congruence.
        destruct Hr2 as (tail & Hi2 & Ht2).
        eexists _, tail, _. split; [|split; [|exact Ht2]].
        -- rewrite Hi2, Hi. by rewrite <- app_assoc.
        -- unfold completed. apply Forall_fmap, Forall_true.
           simpl. eauto.
    + intros [= <- <-]. repeat split; try congruence.
      exists batches, []. rewrite !app_nil_r. repeat split; auto.
  - intros [= <- <-]. repeat split; try congruence.
    destruct Hr as (tail & Hi & Ht).
    eexists _, tail, _. split; [exact Hi|]. split; [|exact Ht].
    unfold completed. apply Forall_fmap, Forall_true. simpl. eauto.
Qed.

(** *** The search over candidate batch sizes *)

Lemma search_cons req kwargs b rest st :
  search diffusion_method req kwargs (b :: rest) st =
  match attempt diffusion_method req kwargs b (entering b st) with
  | (Ok images, st') => (Ok images, st')
  | (Raise RuntimeError, st') =>
      if try_smaller_batch_on_fail req then
        search diffusion_method req kwargs rest (log_warning b st').2
      else (Raise (BatchSizeIsTooLargeException b), st')
  | (Raise e, st') => (Raise e, st')
  end.
Proof. reflexivity. Qed.

Lemma search_stops req kwargs b rest st r_b r st' :
  attempt diffusion_method req kwargs b (entering b st) = (r_b, st') ->
  escalate req b r_b r ->
  search_outcome diffusion_method req kwargs (b :: rest) st r st' [].
Proof.
  intros Eb Hesc. pose proof Eb as Hb.
  apply attempt_spec in Hb as (Ha & Hw & _). simpl in Ha, Hw.
  unfold search_outcome. rewrite app_nil_r.
  split; [constructor|]. split; [done|]. split; [done|]. right.
  exists b, rest, (entering b st), r_b. simpl. auto.
Qed.

Lemma search_spec req kwargs candidates st r st' :
  search diffusion_method req kwargs candidates st = (r, st') ->
  exists failed,
    search_outcome diffusion_method req kwargs candidates st r st' failed.
Proof.
  revert st. induction candidates as [|b rest IH]; intros st.
  - intros [= <- <-]. exists []. unfold search_outcome.
    rewrite !app_nil_r. auto 10.
  - rewrite search_cons.
    destruct (attempt _ _ _ b (entering b st)) as [r_b st1] eqn:Eb.
    destruct r_b as [images|e].
    { intros [= <- <-]. exists []. eapply search_stops; eauto. done. }
    destruct e;
      try (intros [= <- <-]; exists []; eapply search_stops; eauto; done).
    pose proof Eb as Hb. apply attempt_spec in Hb as (Ha & Hw & _).
    simpl in Ha, Hw.
    destruct (try_smaller_batch_on_fail req) eqn:Etry.
    + intros E. apply IH in E
        as (failed & Hall & _ & Hw' & Hcases). simpl in Hw'.
      exists (b :: failed). split; [|split; [done|split]].
      * constructor; [by eexists _, _|done].
      * rewrite Hw', Hw. by rewrite <- app_assoc.
      * destruct Hcases as [(-> & -> & Ha')|
          (b0 & rest0 & st_b & r_b0 & -> & Ha' & Hatt & _ & Hesc)];
          simpl in Ha'; rewrite Ha in Ha'; rewrite <- app_assoc in Ha'.
        -- left. auto.
        -- right. exists b0, rest0, st_b, r_b0.
           repeat split; auto. discriminate.
    + intros [= <- <-]. exists []. eapply search_stops; eauto.
      simpl. auto.
Qed.

(** An attempt raises nothing but what a call of the pipeline or a
    division can raise. *)
Lemma attempt_raises req kwargs b st e st' :
  attempt diffusion_method req kwargs b st = (Raise e, st') ->
  e = ZeroDivisionError \/ e = RuntimeError \/
  exists name, e = OtherException name.
Proof.
  intros E. apply attempt_spec in E as (_ & _ & _ & tail & c & _ & _ & Hf).
  destruct Hf as [[_ ->]|[[_ ->]|(name & _ & ->)]]; eauto.
Qed.

Lemma escalate_ok req b (r_b : result (list Image)) images :
  escalate req b r_b (Ok images) -> r_b = Ok images.
Proof.
  destruct r_b as [images'|e]; simpl; [congruence|].
  destruct e; try discriminate. intros [_ [=]].
Qed.





(** *** The result set *)

Lemma length_concat_uniform (batches : list (list Image)) (b : Z) :
  Forall (fun l => Z.of_nat (length l) = b) batches ->
  Z.of_nat (length (concat batches)) = Z.of_nat (length batches) * b.
Proof.
  induction 1 as [|l batches Hl _ IH]; simpl; [lia|].
  rewrite length_app. lia.
Qed.

(** C6: when every call returns one image per prompt and the run
    returns [images], they come from one candidate [b]: the images of
    its [num_variants div b] full batches of [b] images each, in the
    order the calls were made (the last entries of the log), followed
    by the images of the remainder batch; and there are
    [num_variants] of them. *)
Theorem result_set_order req kwargs st images st' :
  one_image_per_prompt diffusion_method ->
  do_diffusion diffusion_method req kwargs st = (Ok images, st') ->
  exists b batches remainder earlier,
    let nb := num_variants req / b in
    let last := num_variants req - b * nb in
    1 <= b <= Z.min (batch_size req) (num_variants req) /\
    images = concat batches ++ remainder /\
    Z.of_nat (length batches) = nb /\
    Forall (fun l => Z.of_nat (length l) = b) batches /\
    Z.of_nat (length remainder) = last /\
    invocations st' =
      earlier ++
      completed (call_of req kwargs (py_repeat (prompt req) b)) batches ++
      (if 0 <? last
       then [(call_of req kwargs (py_repeat (prompt req) last),
              Images remainder)]
       else []) /\
    Z.of_nat (length images) = num_variants req.
Proof.
  intros Hlen E. unfold do_diffusion in E.
  rewrite py_range_down_countdown in E.
  apply search_spec in E as (failed & _ & _ & _ & Hcases).
  destruct Hcases as [([=] & _)|
    (b & rest & st_b & r_b & Hc & _ & Hatt & _ & Hesc)].
  apply escalate_ok in Hesc as ->.
  apply countdown_split in Hc as (Hb & _ & _).
  apply attempt_spec in Hatt as (_ & _ & Hr). simpl in Hr.
  destruct Hr as (_ & batches & remainder & -> & Hnb & Hfull & Hrem & Hi).
  set (nb := num_variants req / b) in *.
  set (last := num_variants req - b * nb) in *.
  assert (0 <= nb) by (apply Z.div_pos; lia).
  assert (0 <= last < b) as Hlast.
  { pose proof (Z.mod_pos_bound (num_variants req) b).
    unfold last, nb. rewrite Z.mod_eq in * by lia. lia. }
  assert (py_truthy last = (0 <? last)) as Ht.
  { unfold py_truthy. destruct (Z.eqb_spec last 0), (Z.ltb_spec 0 last);
      simpl; auto; lia. }
  rewrite Ht in Hrem, Hi.
  assert (Forall (fun l => Z.of_nat (length l) = b) batches) as Hb'.
  { eapply Forall_impl; [exact Hfull|]. intros l (w & Hw).
    apply Hlen in Hw. rewrite Hw. simpl. unfold py_repeat.
    rewrite repeat_length. lia. }
  assert (Z.of_nat (length remainder) = last) as Hr'.
  { destruct (Z.ltb_spec 0 last).
    - destruct Hrem as (w & Hw). apply Hlen in Hw. rewrite Hw. simpl.
      unfold py_repeat. rewrite repeat_length. lia.
    - subst remainder. simpl. lia. }
  exists b, batches, remainder, (invocations st_b). simpl.
  fold nb last. repeat split; try done; try lia.
  rewrite length_app, Nat2Z.inj_add, (length_concat_uniform _ b) by done.
  rewrite Hr', Hnb. unfold last. lia.
Qed.

(** *** Progress *)

Lemma progress_log_send p (st st1 : St) :
  send_json (ProgressMessage p) st = (Ok tt, st1) ->
  device st1 = device st /\ progress_log st1 = progress_log st ++ [p].
Proof.
  intros [= <-]. split; [done|].
  unfold progress_log, progress_values. cbn [websocket sent ws_send].
  by rewrite omap_app.
Qed.

Lemma total_steps_full_eq nb last T :
  total_steps_full nb last T
  = (nb + if py_truthy last then 1 else 0) * T.
Proof. unfold total_steps_full. destruct (py_truthy last); lia. Qed.

Lemma progress_callback_full_emits i nb last :
  0 < nb + (if py_truthy last then 1 else 0) ->
  emits (progress_callback_full i nb last : Cb)
        (progress_of i (nb + if py_truthy last then 1 else 0)).
Proof.
  intros HN s T st HT.
  unfold progress_callback_full, bind, lift, py_truediv.
  rewrite total_steps_full_eq.
  destruct (Z.eqb_spec ((nb + if py_truthy last then 1 else 0) * T) 0);
    [nia|].
  eexists. split; [reflexivity|]. by apply progress_log_send.
Qed.

Lemma progress_callback_last_emits nb :
  0 <= nb ->
  emits (progress_callback_last nb : Cb) (progress_of nb (nb + 1)).
Proof.
  intros HN s T st HT.
  unfold progress_callback_last, bind, lift, py_truediv, total_steps_last.
  destruct (Z.eqb_spec ((nb + 1) * T) 0); [nia|].
  eexists. split; [reflexivity|]. by apply progress_log_send.
Qed.

Lemma run_callbacks_emits (cb : Cb) value reports st :
  emits cb value -> Forall (fun x => 1 <= x.2) reports ->
  exists st1,
    run_callbacks cb reports st = (Ok tt, st1) /\
    device st1 = device st /\
    progress_log st1
    = progress_log st ++ ((fun x => value x.1 x.2) <$> reports).
Proof.
  intros Hcb Hpos. revert st.
  induction Hpos as [|[s T] reports HT _ IH]; intros st.
  - exists st. simpl. by rewrite app_nil_r.
  - simpl in HT. destruct (Hcb s T st HT) as (st1 & E1 & Hd1 & Hp1).
    destruct (IH st1) as (st2 & E2 & Hd2 & Hp2).
    exists st2. simpl. unfold bind. rewrite E1, E2.
    split; [done|]. split; [congruence|].
    rewrite Hp2, Hp1. by rewrite <- app_assoc.
Qed.

Lemma await_diffusion_emits (c : call K) (cb : Cb) value st r st' :
  emits cb value ->
  Forall (fun x => 1 <= x.2)
    (step_reports (diffusion_method (device st) c).1) ->
  await_diffusion diffusion_method c cb st = (r, st') ->
  r = outcome_result (outcome (diffusion_method (device st) c).1) /\
  progress_log st'
  = progress_log st ++
    ((fun x => value x.1 x.2)
       <$> step_reports (diffusion_method (device st) c).1).
Proof.
  intros Hcb Hpos. unfold await_diffusion.
  destruct (diffusion_method (device st) c) as [inv device'].
  simpl in Hpos.
  edestruct (run_callbacks_emits cb value (step_reports inv)) as
    (st1 & E1 & _ & Hp1); [done..|].
  rewrite E1. intros [= <- <-]. split; [done|].
  unfold progress_log in *. simpl in *. exact Hp1.
Qed.

Lemma batch_start_le i j N :
  0 < N -> i <= j -> (batch_start i N <= batch_start j N)%Q.
Proof. intros. apply Qdiv_Z_le; nia. Qed.

(** The fractions of one call stay in their batch's interval and do
    not decrease. *)
Lemma reports_run_within i N reports :
  0 <= i -> 0 < N -> reports_in_order reports ->
  run_within (batch_start i N) (batch_start (i + 1) N)
    ((fun x => progress_of i N x.1 x.2) <$> reports).
Proof.
  intros Hi HN [Hall Hsorted]. split.
  - induction Hsorted as [|[s T] reports _ IH Hhd]; simpl; [constructor|].
    apply Forall_cons in Hall as [HsT Hall]. simpl in HsT.
    constructor; [by apply IH|].
    destruct Hhd as [|[s' T'] reports Hle]; simpl; constructor.
    apply Forall_cons in Hall as [HsT' _]. unfold report_le in Hle.
    simpl in *. apply Qdiv_Z_le; [nia..|].
    assert (0 <= N * (s' * T - s * T')) by nia. nia.
  - apply Forall_fmap. eapply Forall_impl; [exact Hall|].
    intros [s T] HsT. simpl in *. unfold batch_start, progress_of. split.
    + apply Qdiv_Z_le; nia.
    + apply Qdiv_Z_lt; nia.
Qed.

Lemma run_within_app lo mid hi l1 l2 :
  run_within lo mid l1 -> run_within mid hi l2 ->
  (lo <= mid)%Q -> (mid <= hi)%Q ->
  run_within lo hi (l1 ++ l2).
Proof.
  intros [Hs1 Hb1] [Hs2 Hb2] Hlo Hhi. rewrite Forall_forall in Hb1, Hb2.
  split.
  - apply Sorted_app_between; [done..|]. intros x y Hx Hy.
    apply Hb1 in Hx as [_ Hx]. apply Hb2 in Hy as [Hy _].
    apply Qlt_le_weak. eapply Qlt_le_trans; eauto.
  - apply Forall_app. split; apply Forall_forall; intros p Hp.
    + apply Hb1 in Hp as [? ?]. split; [done|].
      eapply Qlt_le_trans; eauto.
    + apply Hb2 in Hp as [? ?]. split; [|done].
      eapply Qle_trans; eauto.
Qed.

Lemma run_within_nil lo hi : run_within lo hi [].
Proof. split; constructor. Qed.

Lemma run_within_weaken lo mid hi l :
  run_within lo mid l -> (lo <= mid)%Q -> (mid <= hi)%Q ->
  run_within lo hi l.
Proof.
  intros H Hlo Hhi. rewrite <- (app_nil_r l).
  eapply run_within_app; eauto using run_within_nil.
Qed.

Lemma run_within_widen lo hi lo' hi' l :
  run_within lo hi l -> (lo' <= lo)%Q -> (hi <= hi')%Q ->
  run_within lo' hi' l.
Proof.
  intros [Hs Hb] Hlo Hhi. split; [done|].
  eapply Forall_impl; [exact Hb|]. intros p [? ?]. split.
  - eapply Qle_trans; eauto.
  - eapply Qlt_le_trans; eauto.
Qed.


Lemma outcome_result_not_division (o : pipeline_outcome Image) :
  outcome_result o <> Raise ZeroDivisionError.
Proof. by destruct o. Qed.

Lemma full_batches_progress req kwargs prompts nb last (n i0 : nat)
    images st r st' :
  let N := nb + (if py_truthy last then 1 else 0) in
  calls_report_positive diffusion_method req kwargs -> 0 < N ->
  full_batches diffusion_method req kwargs prompts nb last
    (Z.of_nat <$> seq i0 n) images st = (r, st') ->
  r <> Raise ZeroDivisionError /\
  exists ps,
    progress_log st' = progress_log st ++ ps /\
    (calls_report_in_order diffusion_method req kwargs ->
     run_within (batch_start (Z.of_nat i0) N)
                (batch_start (Z.of_nat (i0 + n)) N) ps).
Proof.
  intros N Hpos HN. revert i0 images st.
  induction n as [|n IH]; intros i0 images st.
  - intros [= <- <-]. split; [done|]. exists []. rewrite app_nil_r.
    split; [done|]. intros _. apply run_within_nil.
  - simpl. unfold bind at 1.
    destruct (await_diffusion _ _ _ st) as [r1 st1] eqn:E1.
    eapply await_diffusion_emits in E1 as [Hr1 Hp1];
      [|by apply progress_callback_full_emits|by apply Hpos].
    fold N in Hp1.
    assert (calls_report_in_order diffusion_method req kwargs ->
            run_within (batch_start (Z.of_nat i0) N)
              (batch_start (Z.of_nat i0 + 1) N)
              ((fun x => progress_of (Z.of_nat i0) N x.1 x.2) <$>
               step_reports
                 (diffusion_method (device st)
                    (call_of req kwargs prompts)).1)) as Hrun1.
    { intros Hord. apply reports_run_within; [lia|done|apply Hord]. }
    destruct r1 as [new_images|e].
    + intros E2. apply IH in E2 as (Hr & ps2 & Hp2 & Hrun2).
      split; [done|]. eexists. split.
      { rewrite Hp2, Hp1. by rewrite <- app_assoc. }
      intros Hord. eapply run_within_app; [by apply Hrun1| |..].
      * replace (Z.of_nat i0 + 1) with (Z.of_nat (S i0)) by lia.
        replace (i0 + S n)%nat with (S i0 + n)%nat by lia. by apply Hrun2.
      * apply batch_start_le; lia.
      * apply batch_start_le; lia.
    + intros [= <- <-]. split.
      { rewrite Hr1. apply outcome_result_not_division. }
      eexists. split; [exact Hp1|]. intros Hord.
      eapply run_within_weaken; [by apply Hrun1|..];
        apply batch_start_le; lia.
Qed.

Lemma batch_start_zero N : 0 < N -> (0 <= batch_start 0 N)%Q.
Proof.
  intros. change 0%Q with (inject_Z 0 / inject_Z 1)%Q.
  apply Qdiv_Z_le; lia.
Qed.

Lemma batch_start_one N : 0 < N -> (batch_start N N <= 1)%Q.
Proof.
  intros. change 1%Q with (inject_Z 1 / inject_Z 1)%Q.
  apply Qdiv_Z_le; lia.
Qed.

Lemma attempt_progress req kwargs b st r st' :
  1 <= b <= num_variants req ->
  calls_report_positive diffusion_method req kwargs ->
  attempt diffusion_method req kwargs b st = (r, st') ->
  r <> Raise ZeroDivisionError /\
  exists ps,
    progress_log st' = progress_log st ++ ps /\
    (calls_report_in_order diffusion_method req kwargs -> run_within 0 1 ps).
Proof.
  intros Hb Hpos.
  unfold attempt, num_batches_of, py_floordiv, last_batch_size_of.
  unfold bind at 1. unfold lift at 1.
  destruct (Z.eqb_spec b 0) as [->|_]; [lia|].
  set (nb := num_variants req / b).
  set (last := num_variants req - b * nb).
  assert (1 <= nb) as Hnb.
  { unfold nb. apply Z.div_le_lower_bound; lia. }
  set (N := nb + (if py_truthy last then 1 else 0)).
  assert (0 < N) as HN by (unfold N; destruct (py_truthy last); lia).
  assert (nb <= N) as HnbN by (unfold N; destruct (py_truthy last); lia).
  unfold bind at 1.
  destruct (full_batches _ _ _ _ _ _ _ _ st) as [r1 st1] eqn:E1.
  unfold py_range in E1.
  apply full_batches_progress in E1 as (Hr1 & ps1 & Hp1 & Hrun1);
    [|done..].
  fold N in Hrun1. simpl in Hrun1. rewrite Z2Nat.id in Hrun1 by lia.
  assert (forall ps, run_within (batch_start 0 N) (batch_start N N) ps ->
                     run_within 0 1 ps) as Hunit.
  { intros ps Hps. eapply run_within_widen; [exact Hps|..].
    - by apply batch_start_zero.
    - by apply batch_start_one. }
  assert (calls_report_in_order diffusion_method req kwargs ->
          run_within (batch_start 0 N) (batch_start N N) ps1) as Hrun1'.
  { intros Hord. eapply run_within_weaken; [by apply Hrun1|..];
      apply batch_start_le; lia. }
  destruct r1 as [images|e];
    [|intros [= <- <-]; split; [done|]; exists ps1; auto].
  destruct (py_truthy last) eqn:Ht;
    [|intros [= <- <-]; split; [done|]; exists ps1; auto].
  unfold bind at 1.
  destruct (await_diffusion _ _ _ st1) as [r2 st2] eqn:E2.
  eapply await_diffusion_emits in E2 as [Hr2 Hp2];
    [|apply progress_callback_last_emits; lia|by apply Hpos].
  assert (r <> Raise ZeroDivisionError /\ st' = st2 ->
          r <> Raise ZeroDivisionError /\
          exists ps, progress_log st' = progress_log st ++ ps /\
            (calls_report_in_order diffusion_method req kwargs ->
             run_within 0 1 ps))
    as Hend.
  { intros [Hr ->]. split; [done|]. eexists. split.
    { rewrite Hp2, Hp1. by rewrite <- app_assoc. }
    intros Hord. apply Hunit.
    eapply run_within_app; [by apply Hrun1| |..].
    - unfold N at 2. apply reports_run_within; [lia..|apply Hord].
    - apply batch_start_le; lia.
    - apply batch_start_le; unfold N; lia. }
  destruct r2 as [new_images|e]; intros [= <- <-]; apply Hend;
    split; try done.
  rewrite Hr2. apply outcome_result_not_division.
Qed.

Lemma search_progress req kwargs candidates st r st' :
  Forall (fun b => 1 <= b <= num_variants req) candidates ->
  calls_report_positive diffusion_method req kwargs ->
  search diffusion_method req kwargs candidates st = (r, st') ->
  r <> Raise ZeroDivisionError /\
  exists segments tried,
    attempted st' = attempted st ++ tried /\
    length segments = length tried /\
    progress_log st' = progress_log st ++ concat segments /\
    (calls_report_in_order diffusion_method req kwargs ->
     Forall (run_within 0 1) segments).
Proof.
  intros Hcands Hpos. revert st.
  induction Hcands as [|b rest Hb _ IH]; intros st.
  - intros [= <- <-]. split; [done|]. exists [], []. simpl.
    rewrite !app_nil_r. auto.
  - rewrite search_cons.
    destruct (attempt _ _ _ b (entering b st)) as [r_b st1] eqn:Eb.
    pose proof Eb as Hfr. apply attempt_spec in Hfr as (Ha & _ & _).
    eapply attempt_progress in Eb as (Hrb & ps & Hp & Hrun); [|done..].
    change (progress_log (entering b st)) with (progress_log st) in Hp.
    simpl in Ha.
    assert (forall r0, r0 <> Raise ZeroDivisionError ->
              (r0, st1) = (r, st') ->
              r <> Raise ZeroDivisionError /\
              exists segments tried,
                attempted st' = attempted st ++ tried /\
                length segments = length tried /\
                progress_log st' = progress_log st ++ concat segments /\
                (calls_report_in_order diffusion_method req kwargs ->
                 Forall (run_within 0 1) segments)) as Hstop.
    { intros r0 Hr0 [= <- <-]. split; [done|]. exists [ps], [b]. simpl.
      rewrite app_nil_r. repeat split; auto. }
    destruct r_b as [images|e]; [by apply Hstop|].
    destruct e; try (by apply Hstop).
    destruct (try_smaller_batch_on_fail req); [|by apply Hstop].
    intros E. apply IH in E
      as (Hr & segments & tried & Ha' & Hlen & Hp' & Hrun').
    change (progress_log (log_warning b st1).2)
      with (progress_log st1) in Hp'.
    change (attempted (log_warning b st1).2) with (attempted st1) in Ha'.
    split; [done|]. exists (ps :: segments), (b :: tried).
    rewrite Ha', Ha, Hp', Hp, <- !app_assoc. simpl.
    repeat split; auto.
Qed.


(** C10: with [num_variants >= 1] and [num_inference_steps >= 1], and
    a pipeline that reports a positive [total_batch_steps] whenever it
    is called with a positive number of steps: every candidate [b] has
    [1 <= b <= num_variants] and at least one full batch, both
    [total_steps] are positive for every positive
    [total_batch_steps], and the run never raises
    [ZeroDivisionError]. *)
Theorem total_steps_never_zero req kwargs st :
  1 <= num_variants req -> 1 <= num_inference_steps req ->
  (forall w c, 1 <= call_num_inference_steps c ->
     Forall (fun x => 1 <= x.2) (step_reports (diffusion_method w c).1)) ->
  (forall b,
     b ∈ py_range_down (Z.min (batch_size req) (num_variants req)) ->
     let nb := num_variants req / b in
     1 <= b <= num_variants req /\
     num_batches_of (num_variants req) b = Ok nb /\
     1 <= nb /\
     forall T, 1 <= T ->
       0 < total_steps_full nb
             (last_batch_size_of (num_variants req) b nb) T /\
       0 < total_steps_last nb T) /\
  (do_diffusion diffusion_method req kwargs st).1
    <> Raise ZeroDivisionError.
Proof.
  intros Hn Hsteps Hpos. split.
  - intros b Hb nb. apply py_range_down_elem in Hb.
    assert (1 <= nb) by (unfold nb; apply Z.div_le_lower_bound; lia).
    split; [lia|]. split.
    { unfold num_batches_of, py_floordiv.
      by destruct (Z.eqb_spec b 0); [lia|]. }
    split; [done|]. intros T HT.
    rewrite total_steps_full_eq. unfold total_steps_last.
    destruct (py_truthy _); nia.
  - destruct (do_diffusion diffusion_method req kwargs st) as [r st'] eqn:E.
    simpl. unfold do_diffusion in E.
    apply search_progress in E as [Hr _]; [done| |].
    + apply Forall_forall. intros b Hb.
      apply py_range_down_elem in Hb. lia.
    + intros w prompts. by apply Hpos.
Qed.

End SchedulerFacts.

(** *** The sample pipeline *)

Lemma py_range_elem (n s : Z) : s ∈ py_range n <-> 0 <= s < n.
Proof.
  unfold py_range. rewrite list_elem_of_fmap. split.
  - intros (k & -> & Hk). apply elem_of_seq in Hk. lia.
  - intros Hs. exists (Z.to_nat s). split; [lia|]. apply elem_of_seq. lia.
Qed.

Lemma Sorted_fmap_seq {A} (R : A -> A -> Prop) (f : nat -> A) (a n : nat) :
  (forall k, (a <= k)%nat -> (S k < a + n)%nat -> R (f k) (f (S k))) ->
  Sorted R (f <$> seq a n).
Proof.
  revert a. induction n as [|n IH]; intros a H; simpl; constructor.
  - apply IH. intros k Hk1 Hk2. apply H; lia.
  - destruct n; simpl; constructor. apply H; lia.
Qed.


Lemma step_reports_of_in_order (total : Z) :
  reports_in_order (step_reports_of total).
Proof.
  split.
  - apply Forall_forall. intros [s T] Hx. unfold step_reports_of in Hx.
    apply list_elem_of_fmap in Hx as (s' & [= -> ->] & Hs).
    apply py_range_elem in Hs. simpl. lia.
  - unfold step_reports_of, py_range. rewrite <- list_fmap_compose.
    apply Sorted_fmap_seq. intros k _ Hk. unfold report_le. simpl. nia.
Qed.


Lemma toy_pipeline_positive capacity warmup w (c : call ()) :
  1 <= call_num_inference_steps c ->
  Forall (fun x => 1 <= x.2)
    (step_reports (toy_pipeline capacity warmup w c).1).
Proof.
  intros _.
  assert (Forall (fun x : Z * Z => 1 <= x.2)
            (step_reports_of (call_num_inference_steps c))) as H.
  { destruct (step_reports_of_in_order (call_num_inference_steps c))
      as [Ha _].
    eapply Forall_impl; [exact Ha|]. simpl. lia. }
  unfold toy_pipeline. destruct (_ <=? capacity); simpl; [done|].
  by apply Forall_take.
Qed.

Lemma toy_pipeline_one_image_per_prompt capacity warmup :
  one_image_per_prompt (toy_pipeline capacity warmup).
Proof.
  intros w c new_images. unfold toy_pipeline.
  destruct (_ <=? capacity); simpl; [|discriminate].
  intros [= <-]. apply length_seq.
Qed.

(** *** The claims on sample runs *)


Lemma batch_plan_covers_witness :
  exists num_batches,
    num_batches_of 10 4 = Ok num_batches /\
    num_batches = 10 / 4 /\
    last_batch_size_of 10 4 num_batches = 10 - 4 * num_batches /\
    num_batches * 4 + last_batch_size_of 10 4 num_batches = 10 /\
    0 <= last_batch_size_of 10 4 num_batches < 4.
Proof. apply (batch_plan_covers 10 4); lia. Defined.





(** Ten variants in batches of four on a device that holds four: two
    full batches and a remainder of two. *)
Lemma result_set_order_witness :
  let req := toy_request 10 4 2 true in
  let run := do_diffusion (toy_pipeline 4 0) req () toy_state in
  run.1 = Ok (seq 0 10) /\
  exists b batches remainder,
    seq 0 10 = concat batches ++ remainder /\
    Z.of_nat (length batches) = 10 / b /\
    Forall (fun l => Z.of_nat (length l) = b) batches /\
    Z.of_nat (length remainder) = 10 - b * (10 / b).
Proof.
  intros req run. split; [by vm_compute|].
  destruct (result_set_order (toy_pipeline 4 0) req () toy_state
              (seq 0 10) run.2)
    as (b & batches & remainder & earlier & _ & H1 & H2 & H3 & H4 & _);
    [apply toy_pipeline_one_image_per_prompt|by vm_compute|].
  exists b, batches, remainder. auto.
Defined.

Lemma total_steps_never_zero_witness :
  let req := toy_request 10 4 2 true in
  (do_diffusion (toy_pipeline 3 1) req () toy_state).1
    <> Raise ZeroDivisionError.
Proof.
  intros req.
  apply (total_steps_never_zero (toy_pipeline 3 1) req () toy_state);
    [simpl; lia|simpl; lia|].
  intros w c. apply toy_pipeline_positive.
Defined.

(** *** The handshake *)

Lemma py_ne_str_false (v : option json) (s : string) :
  py_ne_str v s = false <-> v = Some (JStr s).
Proof.
  unfold py_ne_str. split.
  - destruct v as [[]|]; try discriminate.
    rewrite negb_false_iff, String.eqb_eq. by intros ->.
  - intros ->. by rewrite String.eqb_refl.
Qed.

Section HandshakeFacts.

Variables USERNAME PASSWORD : string.
Variable message_of : exn -> string.
Context {H : Type}.
Variable handler : WebSocket -> H -> result unit * WebSocket * H.

Lemma credentials_rejected_dict (d : gmap string json) :
  credentials_rejected USERNAME PASSWORD (JDict d) = Ok false <->
  d !! "username" = Some (JStr USERNAME) /\
  d !! "password" = Some (JStr PASSWORD).
Proof.
  unfold credentials_rejected. simpl.
  rewrite <- !py_ne_str_false.
  destruct (py_ne_str (d !! "username") USERNAME),
           (py_ne_str (d !! "password") PASSWORD);
    split; try done; intros []; discriminate.
Qed.

(** X8: a first message that is a JSON object without the configured
    username and password: the connection is closed with code 1008
    and the reason 'Authorization error', one frame has been read,
    and the result does not depend on the endpoint's handler. *)
Lemma wrong_credentials_close (ws : WebSocket) d rest (h : H) :
  inbound ws = TextJson (JDict d) :: rest ->
  d !! "username" <> Some (JStr USERNAME) \/
  d !! "password" <> Some (JStr PASSWORD) ->
  websocket_handler USERNAME PASSWORD message_of handler ws h
  = (Ok tt,
     ws_close WS_1008_POLICY_VIOLATION "Authorization error"
       (ws_consume rest (ws_accept ws)), h).
Proof.
  intros Hin Hbad.
  unfold websocket_handler, authorize_web_socket, receive_json.
  simpl. rewrite Hin.
  destruct (credentials_rejected USERNAME PASSWORD (JDict d))
    as [[]|e] eqn:E; [done| |].
  - apply credentials_rejected_dict in E. tauto.
  - unfold credentials_rejected in E. simpl in E.
    by destruct (py_ne_str _ USERNAME).
Qed.

(** With the configured credentials the handler runs on the rest of
    the connection. *)
Lemma right_credentials_run_handler (ws : WebSocket) d rest (h : H) :
  inbound ws = TextJson (JDict d) :: rest ->
  d !! "username" = Some (JStr USERNAME) ->
  d !! "password" = Some (JStr PASSWORD) ->
  websocket_handler USERNAME PASSWORD message_of handler ws h
  = match handler (ws_consume rest (ws_accept ws)) h with
    | (Ok _, ws2, h2) => (Ok tt, ws2, h2)
    | (Raise e, ws2, h2) => wrapper_except message_of e ws2 h2
    end.
Proof.
  intros Hin Hu Hp.
  unfold websocket_handler, authorize_web_socket, receive_json.
  simpl. rewrite Hin.
  by rewrite (proj2 (credentials_rejected_dict d) (conj Hu Hp)).
Qed.

(** X9: a first frame that is not JSON: closed with code 1008 by the
    [JSONDecodeError] clause; the handler does not run. *)
Lemma not_json_close (ws : WebSocket) rest (h : H) :
  inbound ws = TextNotJson :: rest ->
  websocket_handler USERNAME PASSWORD message_of handler ws h
  = (Ok tt,
     ws_close WS_1008_POLICY_VIOLATION
       "Server received message that is not in json format"
       (ws_consume rest (ws_accept ws)), h).
Proof.
  intros Hin.
  unfold websocket_handler, authorize_web_socket, receive_json.
  simpl. by rewrite Hin.
Qed.

(** A first message that is JSON but not an object: [credentials.get]
    raises [AttributeError], no [except] clause of [wrapper] takes it,
    and the connection is left without a close frame. *)
Lemma not_an_object_raises (ws : WebSocket) v rest (h : H) :
  inbound ws = TextJson v :: rest ->
  match v with
  | JDict _ => True
  | _ =>
      websocket_handler USERNAME PASSWORD message_of handler ws h
      = (Raise AttributeError, ws_consume rest (ws_accept ws), h)
  end.
Proof.
  intros Hin. destruct v; try done;
    unfold websocket_handler, authorize_web_socket, receive_json;
    simpl; by rewrite Hin.
Qed.

(** C7, at the failing input: the first message is the JSON array
    [[]]. The handshake raises [AttributeError] out of [wrapper]; the
    connection is not closed with code 1008 (no close frame is sent at
    all). The handler is not reached. *)
Theorem handshake_array_not_closed (rest : list frame) (h : H) :
  websocket_handler USERNAME PASSWORD message_of handler
    (fresh_socket (TextJson (JList []) :: rest)) h
  = (Raise AttributeError,
     {| accepted := true; inbound := rest; sent := []; closed := None |},
     h).
Proof. reflexivity. Qed.

End HandshakeFacts.

(** *** The masks of [inpainting] *)

Lemma tensor_any_false (t : tensor) :
  tensor_any t = false <-> Forall (fun x => x == 0)%Q t.
Proof.
  unfold tensor_any. induction t as [|x t IH]; simpl.
  - split; [constructor|done].
  - rewrite orb_false_iff, negb_false_iff, Qeq_bool_iff, IH.
    split; [intros []; by constructor|by inversion 1].
Qed.

Lemma tensor_max_zero_l (m a : tensor) :
  length m = length a ->
  Forall (fun x => x == 0)%Q m -> Forall (fun y => 0 <= y)%Q a ->
  tensor_max m a = a.
Proof.
  intros Hlen Hm. revert a Hlen.
  induction Hm as [|x m Hx _ IH]; intros [|y a]; try discriminate; [done|].
  intros [= Hlen] Ha. apply Forall_cons in Ha as [Hy Ha].
  unfold tensor_max in *. simpl. rewrite IH by done.
  assert (Qle_bool x y = true) as ->; [|done].
  apply Qle_bool_iff. by rewrite Hx.
Qed.

Lemma tensor_max_zero_r (m a : tensor) :
  length m = length a ->
  Forall (fun x => 0 <= x)%Q m -> Forall (fun y => y == 0)%Q a ->
  Forall2 Qeq m (tensor_max m a).
Proof.
  intros Hlen Hm. revert a Hlen.
  induction Hm as [|x m Hx _ IH]; intros [|y a]; try discriminate;
    [constructor|].
  intros [= Hlen] Ha. apply Forall_cons in Ha as [Hy Ha].
  unfold tensor_max in *. simpl. constructor; [|by apply IH].
  destruct (Qle_bool x y) eqn:E; [|reflexivity].
  apply Qle_bool_iff in E. rewrite Hy in *. by apply Qle_antisym.
Qed.

Section InpaintingFacts.

Context {PILImage Size : Type}.
Variable mode : PILImage -> string.
Variable getchannel : PILImage -> string -> PILImage.
Variable resize : PILImage -> Size -> PILImage.
Variable base64url_to_image : string -> PILImage.
Variable preprocess_mask : PILImage -> tensor.

Abbreviation masks_of :=
  (inpainting_masks mode getchannel resize base64url_to_image
     preprocess_mask).

(** C9 (as amended): for an RGBA source the alpha-derived tensor
    [a0 = 1 - preprocess_mask(A)] is computed, and a tensor without a
    non-zero element is dropped. Without an explicit mask the
    effective mask is the alpha mask that remains. With an explicit
    mask [m0]: the maximum of both when both have a non-zero element,
    the one that has when only one does, and [None] when neither
    does; so, for non-negative tensors of one shape, the element-wise
    maximum as soon as either has a non-zero element. *)
Theorem inpainting_effective_mask source_image request_mask size :
  mode source_image = "RGBA"%string ->
  let a0 := alpha_derived getchannel preprocess_mask source_image in
  let alpha := if tensor_any a0 then Some a0 else None in
  (py_truthy_str request_mask = false ->
   masks_of source_image request_mask size = (alpha, alpha)) /\
  (forall s, request_mask = Some s ->
     py_truthy_str request_mask = true ->
     let m0 := preprocess_mask (resize (base64url_to_image s) size) in
     exists mask,
       masks_of source_image request_mask size = (mask, alpha) /\
       (tensor_any m0 = true -> tensor_any a0 = true ->
        mask = Some (tensor_max m0 a0)) /\
       (tensor_any m0 = false -> mask = alpha) /\
       (tensor_any a0 = false ->
        mask = if tensor_any m0 then Some m0 else None) /\
       (length m0 = length a0 ->
        Forall (fun x => 0 <= x)%Q m0 -> Forall (fun y => 0 <= y)%Q a0 ->
        if tensor_any m0 || tensor_any a0
        then exists t, mask = Some t /\ Forall2 Qeq t (tensor_max m0 a0)
        else mask = None)).
Proof.
  intros Hmode a0 alpha.
  unfold inpainting_masks, alpha_mask, explicit_mask.
  rewrite Hmode. simpl. fold a0. split.
  - intros ->. simpl. fold alpha. by destruct alpha.
  - intros s -> ->. simpl. fold alpha.
    set (m0 := preprocess_mask (resize (base64url_to_image s) size)).
    eexists. split; [reflexivity|]. unfold alpha.
    destruct (tensor_any m0) eqn:Em, (tensor_any a0) eqn:Ea; simpl;
      repeat split; try done; intros Hlen Hm Ha.
    + eexists. split; [done|].
      induction (tensor_max m0 a0); constructor; [reflexivity|done].
    + apply tensor_any_false in Ea. eexists. split; [done|].
      by apply tensor_max_zero_r.
    + apply tensor_any_false in Em. eexists. split; [done|].
      by rewrite tensor_max_zero_l.
Qed.

End InpaintingFacts.

(** An RGBA source [[1/2, 1]], alpha-derived mask [[1/2, 0]], explicit
    mask [[0, 1]]: the effective mask is their maximum. *)
Lemma inpainting_effective_mask_witness :
  let source : toy_image := ("RGBA"%string, [1 # 2; 1]%Q) in
  (inpainting_masks toy_mode toy_getchannel toy_resize toy_decode
     toy_preprocess_mask source (Some "01"%string) ()).1
  = Some (tensor_max
            (toy_preprocess_mask (toy_resize (toy_decode "01") ()))
            (alpha_derived toy_getchannel toy_preprocess_mask source)).
Proof.
  intros source.
  destruct (inpainting_effective_mask toy_mode toy_getchannel toy_resize
              toy_decode toy_preprocess_mask source (Some "01"%string) ())
    as [_ Hsome]; [reflexivity|].
  destruct (Hsome "01"%string) as (mask & E & Hmax & _); [done..|].
  rewrite E. simpl. apply Hmax; reflexivity.
Defined.

(** C9, as stated, fails: a fully opaque RGBA source with an explicit
    mask that is black everywhere. Both tensors are zero, both are
    dropped, and [inpainting] passes no mask at all, where the
    element-wise maximum is the zero tensor. *)
Lemma inpainting_empty_masks_dropped :
  let source : toy_image := ("RGBA"%string, [1; 1]%Q) in
  let m0 := toy_preprocess_mask (toy_resize (toy_decode "00") ()) in
  let a0 := alpha_derived toy_getchannel toy_preprocess_mask source in
  toy_mode source = "RGBA"%string /\
  length (tensor_max m0 a0) = 2%nat /\
  inpainting_masks toy_mode toy_getchannel toy_resize toy_decode
    toy_preprocess_mask source (Some "00"%string) () = (None, None) /\
  (inpainting_masks toy_mode toy_getchannel toy_resize toy_decode
     toy_preprocess_mask source (Some "00"%string) ()).1
  <> Some (tensor_max m0 a0).
Proof. by vm_compute. Qed.

(** *** Whole runs: the connection, the calls, the failures *)

Lemma only_progress_sent_refl (ws : WebSocket) : only_progress_sent ws ws.
Proof. repeat split. exists []. simpl. by rewrite app_nil_r. Qed.

Lemma only_progress_sent_trans (ws1 ws2 ws3 : WebSocket) :
  only_progress_sent ws1 ws2 -> only_progress_sent ws2 ws3 ->
  only_progress_sent ws1 ws3.
Proof.
  intros (Ha & Hi & Hc & ps & Hs) (Ha' & Hi' & Hc' & ps' & Hs').
  repeat split; try congruence. exists (ps ++ ps').
  rewrite Hs', Hs, fmap_app. by rewrite <- app_assoc.
Qed.

Section RunFacts.

Context {W Image K : Type}.
Variable diffusion_method : W -> call K -> invocation Image * W.

Abbreviation St := (state W Image K).
Abbreviation Cb := (Z -> Z -> @M W Image K unit).

Lemma progress_callback_full_sends i nb last :
  sends_progress (progress_callback_full i nb last : Cb).
Proof.
  intros s T st r st'.
  unfold progress_callback_full, bind, lift, send_json, py_truediv.
  destruct (_ =? 0); intros [= <- <-]; simpl.
  - apply only_progress_sent_refl.
  - repeat split. by eexists [_].
Qed.

Lemma progress_callback_last_sends nb :
  sends_progress (progress_callback_last nb : Cb).
Proof.
  intros s T st r st'.
  unfold progress_callback_last, bind, lift, send_json, py_truediv.
  destruct (_ =? 0); intros [= <- <-]; simpl.
  - apply only_progress_sent_refl.
  - repeat split. by eexists [_].
Qed.

Lemma run_callbacks_sends (cb : Cb) reports (st : St) r st' :
  sends_progress cb ->
  run_callbacks cb reports st = (r, st') ->
  only_progress_sent (websocket st) (websocket st').
Proof.
  intros Hcb. revert st.
  induction reports as [|[s T] reports IH]; intros st.
  - intros [= <- <-]. apply only_progress_sent_refl.
  - simpl. unfold bind at 1. destruct (cb s T st) as [r1 st1] eqn:E1.
    apply Hcb in E1. destruct r1 as [[]|e].
    + intros E2. apply IH in E2. by eapply only_progress_sent_trans.
    + by intros [= <- <-].
Qed.

Lemma await_diffusion_sends (c : call K) (cb : Cb) (st : St) r st' :
  sends_progress cb ->
  await_diffusion diffusion_method c cb st = (r, st') ->
  only_progress_sent (websocket st) (websocket st').
Proof.
  intros Hcb. unfold await_diffusion.
  destruct (diffusion_method (device st) c) as [inv device'].
  destruct (run_callbacks cb (step_reports inv) _) as [r1 st1] eqn:E1.
  apply run_callbacks_sends in E1; [|done]. simpl in E1.
  by destruct r1; intros [= <- <-].
Qed.

Lemma full_batches_sends req kwargs prompts nb last indices images
    (st : St) r st' :
  full_batches diffusion_method req kwargs prompts nb last indices images st
    = (r, st') ->
  only_progress_sent (websocket st) (websocket st').
Proof.
  revert images st. induction indices as [|i indices IH]; intros images st.
  - intros [= <- <-]. apply only_progress_sent_refl.
  - simpl. unfold bind at 1.
    destruct (await_diffusion _ _ _ st) as [r1 st1] eqn:E1.
    apply await_diffusion_sends in E1;
      [|apply progress_callback_full_sends].
    destruct r1 as [new_images|e].
    + intros E2. apply IH in E2. by eapply only_progress_sent_trans.
    + by intros [= <- <-].
Qed.

Lemma attempt_sends req kwargs b (st : St) r st' :
  attempt diffusion_method req kwargs b st = (r, st') ->
  only_progress_sent (websocket st) (websocket st').
Proof.
  unfold attempt. unfold bind at 1. unfold lift at 1.
  destruct (num_batches_of _ _) as [nb|e];
    [|intros [= <- <-]; apply only_progress_sent_refl].
  unfold bind at 1.
  destruct (full_batches _ _ _ _ _ _ _ _ st) as [r1 st1] eqn:E1.
  apply full_batches_sends in E1.
  destruct r1 as [images|e]; [|by intros [= <- <-]].
  destruct (py_truthy _); [|by intros [= <- <-]].
  unfold bind at 1.
  destruct (await_diffusion _ _ _ st1) as [r2 st2] eqn:E2.
  apply await_diffusion_sends in E2; [|apply progress_callback_last_sends].
  destruct r2; intros [= <- <-]; by eapply only_progress_sent_trans.
Qed.

Lemma search_sends req kwargs candidates (st : St) r st' :
  search diffusion_method req kwargs candidates st = (r, st') ->
  only_progress_sent (websocket st) (websocket st').
Proof.
  revert st. induction candidates as [|b rest IH]; intros st.
  - intros [= <- <-]. apply only_progress_sent_refl.
  - rewrite search_cons.
    destruct (attempt _ _ _ b (entering b st)) as [r_b st1] eqn:Eb.
    apply attempt_sends in Eb. simpl in Eb.
    destruct r_b as [images|e]; [by intros [= <- <-]|].
    destruct e; try (by intros [= <- <-]).
    destruct (try_smaller_batch_on_fail req); [|by intros [= <- <-]].
    intros E. apply IH in E. simpl in E.
    by eapply only_progress_sent_trans.
Qed.

(** X1: whatever a run of [do_diffusion] ends in, it leaves the
    connection as it was but for progress messages appended: it reads no
    frame, sends no FINISHED message and does not close. *)
Theorem do_diffusion_only_sends_progress req kwargs (st : St) :
  only_progress_sent (websocket st)
    (websocket (do_diffusion diffusion_method req kwargs st).2).
Proof.
  destruct (do_diffusion diffusion_method req kwargs st) as [r st'] eqn:E.
  simpl. unfold do_diffusion in E. by apply search_sends in E.
Qed.

Lemma completed_no_other (c : call K) (batches : list (list Image))
    c' name :
  (c', RaisesOther name) ∉ completed c batches.
Proof.
  unfold completed. rewrite list_elem_of_fmap. intros (l & [=] & _).
Qed.

(** The calls of one attempt: completed full batches, then what ended
    it. *)
Lemma attempt_calls req kwargs b (st : St) r st' :
  b <> 0 ->
  attempt diffusion_method req kwargs b st = (r, st') ->
  let nb := num_variants req / b in
  let last := num_variants req - b * nb in
  let c_full := call_of req kwargs (py_repeat (prompt req) b) in
  let c_last := call_of req kwargs (py_repeat (prompt req) last) in
  exists batches tail,
    invocations st' = invocations st ++ completed c_full batches ++ tail /\
    match r with
    | Ok _ =>
        tail = [] \/
        (py_truthy last = true /\ exists rem, tail = [(c_last, Images rem)])
    | Raise e =>
        failed_call c_full e tail \/
        (py_truthy last = true /\ failed_call c_last e tail)
    end.
Proof.
  intros Hb.
  unfold attempt, num_batches_of, py_floordiv, last_batch_size_of.
  unfold bind at 1. unfold lift at 1.
  destruct (Z.eqb_spec b 0) as [|_]; [done|].
  unfold bind at 1.
  destruct (full_batches _ _ _ _ _ _ _ _ st) as [r1 st1] eqn:E1.
  apply full_batches_spec in E1 as (_ & _ & batches & Hr).
  simpl in Hr. destruct r1 as [images|e].
  - destruct Hr as (_ & _ & _ & Hi).
    destruct (py_truthy _) eqn:Ht.
    + unfold bind at 1.
      destruct (await_diffusion _ _ _ st1) as [r2 st2] eqn:E2.
      apply await_diffusion_spec in E2 as (_ & _ & Hr2);
        [|apply progress_callback_last_only_sends].
      destruct r2 as [new_images|e]; intros [= <- <-]; simpl.
      * destruct Hr2 as [Hi2 _]. eexists batches, _. split.
        { rewrite Hi2, Hi. by rewrite <- app_assoc. }
        right. eauto.
      * destruct Hr2 as (tail & Hi2 & Hf). exists batches, tail. split.
        { rewrite Hi2, Hi. by rewrite <- app_assoc. }
        right. auto.
    + intros [= <- <-]. exists batches, []. rewrite app_nil_r. auto.
  - destruct Hr as (tail & Hi & Hf). intros [= <- <-].
    exists batches, tail. auto.
Qed.

Lemma failed_call_other (c : call K) e
    (tail : list (call K * pipeline_outcome Image)) c' name :
  failed_call c e tail -> (c', RaisesOther name) ∈ tail ->
  e = OtherException name /\ tail = [(c', RaisesOther name)].
Proof.
  intros [[-> ->]|[[-> ->]|(name' & -> & ->)]] Hin.
  - by apply elem_of_nil in Hin.
  - apply list_elem_of_singleton in Hin. discriminate.
  - apply list_elem_of_singleton in Hin. by injection Hin as -> ->.
Qed.

Lemma failed_call_other_inv (c : call K) name
    (tail : list (call K * pipeline_outcome Image)) :
  failed_call c (OtherException name) tail -> tail = [(c, RaisesOther name)].
Proof.
  intros [[_ [=]]|[[_ [=]]|(name' & -> & [= ->])]]. done.
Qed.

Lemma failed_call_within req kwargs (c : call K) e
    (tail : list (call K * pipeline_outcome Image)) :
  call_within req kwargs c -> failed_call c e tail ->
  Forall (fun x => call_within req kwargs x.1) tail.
Proof.
  intros Hc [[-> _]|[[-> _]|(name & -> & _)]]; repeat constructor; done.
Qed.

Lemma attempt_log req kwargs b (st : St) r st' :
  1 <= b <= Z.min (batch_size req) (num_variants req) ->
  attempt diffusion_method req kwargs b st = (r, st') ->
  exists new,
    invocations st' = invocations st ++ new /\
    log_of_run req kwargs new r.
Proof.
  intros Hb E. apply attempt_calls in E as (batches & tail & Hi & Hr);
    [|lia].
  set (nb := num_variants req / b) in *.
  set (last := num_variants req - b * nb) in *.
  set (c_full := call_of req kwargs (py_repeat (prompt req) b)) in *.
  set (c_last := call_of req kwargs (py_repeat (prompt req) last)) in *.
  assert (call_within req kwargs c_full) as Hfull by (by exists b).
  assert (py_truthy last = true -> call_within req kwargs c_last) as Hlast.
  { intros Ht. exists last. split; [|done].
    pose proof (Z.mod_pos_bound (num_variants req) b).
    unfold py_truthy in Ht. apply negb_true_iff, Z.eqb_neq in Ht.
    unfold last, nb in *. rewrite Z.mod_eq in * by lia. lia. }
  assert (Forall (fun x : call K * pipeline_outcome Image =>
                    call_within req kwargs x.1) (completed c_full batches))
    as Hcompleted.
  { unfold completed. apply Forall_fmap, Forall_true. by intros l. }
  exists (completed c_full batches ++ tail). split; [done|].
  destruct r as [images|e].
  - split; [|split].
    + apply Forall_app. split; [done|].
      destruct Hr as [->|(Ht & rem & ->)]; repeat constructor. by apply Hlast.
    + intros c name Hin. apply elem_of_app in Hin as [Hin|Hin];
        [by apply completed_no_other in Hin|].
      destruct Hr as [->|(_ & rem & ->)].
      * by apply elem_of_nil in Hin.
      * apply list_elem_of_singleton in Hin. discriminate.
    + discriminate.
  - assert (exists c, call_within req kwargs c /\ failed_call c e tail)
      as (c & Hc & Hf).
    { destruct Hr as [Hf|[Ht Hf]]; eauto. }
    split; [|split].
    + apply Forall_app. split; [done|]. by eapply failed_call_within.
    + intros c' name Hin. apply elem_of_app in Hin as [Hin|Hin];
        [by apply completed_no_other in Hin|].
      destruct (failed_call_other _ _ _ _ _ Hf Hin) as [-> ->]. eauto.
    + intros name [= ->]. apply failed_call_other_inv in Hf as ->. eauto.
Qed.

Lemma log_of_run_app req (kwargs : K)
    (new1 new2 : list (call K * pipeline_outcome Image)) r1 r :
  log_of_run req kwargs new1 r1 ->
  (forall name, r1 <> Raise (OtherException name)) ->
  log_of_run req kwargs new2 r ->
  log_of_run req kwargs (new1 ++ new2) r.
Proof.
  intros (Hs1 & Ho1 & _) Hr1 (Hs2 & Ho2 & Hlast2). split; [|split].
  - by apply Forall_app.
  - intros c name Hin. apply elem_of_app in Hin as [Hin|Hin].
    + apply Ho1 in Hin as [Hin _]. by apply Hr1 in Hin.
    + apply Ho2 in Hin as [-> (before & ->)]. split; [done|].
      exists (new1 ++ before). by rewrite <- app_assoc.
  - intros name Hr. apply Hlast2 in Hr as (c & before & ->).
    exists c, (new1 ++ before). by rewrite <- app_assoc.
Qed.

Lemma log_of_run_stop req (kwargs : K)
    (new : list (call K * pipeline_outcome Image)) r1 r :
  log_of_run req kwargs new r1 ->
  (forall name, r1 <> Raise (OtherException name)) ->
  (forall name, r <> Raise (OtherException name)) ->
  log_of_run req kwargs new r.
Proof.
  intros (Hs1 & Ho1 & _) Hr1 Hr. split; [done|]. split.
  - intros c name Hin. apply Ho1 in Hin as [Hin _]. by apply Hr1 in Hin.
  - intros name Hn. by apply Hr in Hn.
Qed.

Lemma search_log req kwargs candidates (st : St) r st' :
  Forall (fun b => 1 <= b <= Z.min (batch_size req) (num_variants req))
    candidates ->
  search diffusion_method req kwargs candidates st = (r, st') ->
  exists new,
    invocations st' = invocations st ++ new /\
    log_of_run req kwargs new r.
Proof.
  intros Hcands. revert st.
  induction Hcands as [|b rest Hb _ IH]; intros st.
  - intros [= <- <-]. exists []. rewrite app_nil_r. split; [done|].
    split; [constructor|]. split; [|discriminate].
    intros c name Hin. by apply elem_of_nil in Hin.
  - rewrite search_cons.
    destruct (attempt _ _ _ b (entering b st)) as [r_b st1] eqn:Eb.
    apply attempt_log in Eb as (new1 & Hi1 & Hlog1); [|done].
    simpl in Hi1.
    destruct r_b as [images|e];
      [intros [= <- <-]; by exists new1|].
    destruct e; try (intros [= <- <-]; by exists new1).
    destruct (try_smaller_batch_on_fail req).
    + intros E. apply IH in E as (new2 & Hi2 & Hlog2). simpl in Hi2.
      exists (new1 ++ new2). split.
      { rewrite Hi2, Hi1. by rewrite <- app_assoc. }
      eapply log_of_run_app; [exact Hlog1|discriminate|exact Hlog2].
    + intros [= <- <-]. exists new1. split; [done|].
      eapply log_of_run_stop; [exact Hlog1|discriminate..].
Qed.

Lemma py_range_down_within req :
  Forall (fun b => 1 <= b <= Z.min (batch_size req) (num_variants req))
    (py_range_down (Z.min (batch_size req) (num_variants req))).
Proof. apply Forall_forall. intros b Hb. by apply py_range_down_elem. Qed.

(** X2: every call of the pipeline a run makes carries the request's
    prompt [k] times for some [1 <= k <= min(batch_size, num_variants)],
    with the request's steps, seed, guidance scale and the endpoint's
    keyword arguments; so no call asks for more than [batch_size]
    images, and none for zero. *)
Theorem do_diffusion_calls_within req kwargs (st : St) :
  exists new,
    invocations (do_diffusion diffusion_method req kwargs st).2
    = invocations st ++ new /\
    Forall (fun x =>
              call_within req kwargs x.1 /\
              1 <= Z.of_nat (length (call_prompt x.1)) <= batch_size req /\
              Forall (fun p => p = prompt req) (call_prompt x.1)) new.
Proof.
  destruct (do_diffusion diffusion_method req kwargs st) as [r st'] eqn:E.
  unfold do_diffusion in E.
  apply search_log in E as (new & Hi & Hshape & _);
    [|apply py_range_down_within].
  exists new. split; [done|].
  eapply Forall_impl; [exact Hshape|]. intros [c o] (k & Hk & ->).
  simpl. split; [by exists k|]. unfold py_repeat.
  rewrite repeat_length. split; [lia|].
  apply Forall_forall. intros p Hp. apply list_elem_of_In in Hp.
  by apply repeat_spec in Hp.
Qed.




End RunFacts.

(** *** More on the handshake *)

Section HandshakeMore.

Variables USERNAME PASSWORD : string.
Variable message_of : exn -> string.
Context {H : Type}.

(** The frames on which [authorize_web_socket] returns [True]. *)
Lemma authorize_web_socket_true_iff (ws : WebSocket) :
  (authorize_web_socket USERNAME PASSWORD ws).1 = Ok true <->
  exists d rest,
    inbound ws = TextJson (JDict d) :: rest /\
    d !! "username" = Some (JStr USERNAME) /\
    d !! "password" = Some (JStr PASSWORD).
Proof.
  unfold authorize_web_socket, receive_json. split.
  - destruct (inbound ws) as [|[v| |] rest]; simpl; try discriminate.
    destruct (credentials_rejected USERNAME PASSWORD v) as [[]|e] eqn:E;
      simpl; try discriminate.
    intros _. destruct v; try discriminate.
    apply credentials_rejected_dict in E. eauto.
  - intros (d & rest & -> & Hu & Hp). simpl.
    by rewrite (proj2 (credentials_rejected_dict USERNAME PASSWORD d)
                  (conj Hu Hp)).
Qed.

(** X6: the handshake accepts exactly a first frame that is a JSON
    object whose [username] and [password] are the configured strings:
    a missing key, a value that is not a string, a message that is not
    an object or not JSON, and a disconnect are all not accepted. *)
Theorem handshake_accepts_iff (ws : WebSocket) :
  (authorize_web_socket USERNAME PASSWORD ws).1 = Ok true <->
  exists d rest,
    inbound ws = TextJson (JDict d) :: rest /\
    d !! "username" = Some (JStr USERNAME) /\
    d !! "password" = Some (JStr PASSWORD).
Proof. exact (authorize_web_socket_true_iff ws). Qed.

(** X7: unless the first frame is accepted, the endpoint's handler is
    never run: two endpoints that differ only in their handler end in
    the same result, connection and state. *)
Theorem handler_runs_only_when_accepted (ws : WebSocket) (h : H) :
  (exists d rest,
     inbound ws = TextJson (JDict d) :: rest /\
     d !! "username" = Some (JStr USERNAME) /\
     d !! "password" = Some (JStr PASSWORD)) \/
  (forall handler1 handler2 : WebSocket -> H -> result unit * WebSocket * H,
     websocket_handler USERNAME PASSWORD message_of handler1 ws h
     = websocket_handler USERNAME PASSWORD message_of handler2 ws h).
Proof.
  destruct (authorize_web_socket USERNAME PASSWORD (ws_accept ws))
    as [r ws1] eqn:E.
  destruct r as [[]|e].
  - left. apply (f_equal fst) in E. simpl in E.
    apply authorize_web_socket_true_iff in E. exact E.
  - right. intros handler1 handler2. unfold websocket_handler. by rewrite E.
  - right. intros handler1 handler2. unfold websocket_handler. by rewrite E.
Qed.

(** X10: a client that disconnects before it sends its credentials
    ends the session silently: no close frame, nothing sent, and the
    handler does not run. *)
Theorem disconnect_before_credentials
    (handler : WebSocket -> H -> result unit * WebSocket * H)
    (ws : WebSocket) rest (h : H) :
  inbound ws = ClientDisconnect :: rest ->
  websocket_handler USERNAME PASSWORD message_of handler ws h
  = (Ok tt, ws_consume rest (ws_accept ws), h).
Proof.
  intros Hin.
  unfold websocket_handler, authorize_web_socket, receive_json.
  simpl. by rewrite Hin.
Qed.

(** X11: [authorize] and the handshake accept the same credentials: a
    username and a password pass [authorize] exactly when the JSON
    object that carries them as strings is accepted as first frame. *)
Theorem authorize_agrees_with_handshake (username password : string) :
  authorize USERNAME PASSWORD username password = Responds tt <->
  (authorize_web_socket USERNAME PASSWORD
     (fresh_socket
        [TextJson (JDict (<["username" := JStr username]>
                            (<["password" := JStr password]> ∅)))])).1
  = Ok true.
Proof.
  rewrite authorize_web_socket_true_iff. unfold authorize. simpl. split.
  - destruct (String.eqb_spec username USERNAME) as [->|];
      [|discriminate].
    destruct (String.eqb_spec password PASSWORD) as [->|];
      [|discriminate].
    intros _. eexists _, _. split; [done|].
    split; [by rewrite lookup_insert_eq|].
    rewrite lookup_insert_ne by done. by rewrite lookup_insert_eq.
  - intros (d & rest & [= <- _] & Hu & Hp).
    rewrite lookup_insert_eq in Hu. injection Hu as ->.
    rewrite lookup_insert_ne, lookup_insert_eq in Hp by done.
    injection Hp as ->. by rewrite !String.eqb_refl.
Qed.

End HandshakeMore.

Lemma wrong_credentials_close_witness :
  websocket_handler "admin" "secret" (fun _ => ""%string)
    (fun ws (h : unit) => (Ok tt, ws_send (FinishedMessage JNull) ws, h))
    (fresh_socket
       [TextJson (JDict (<["username" := JStr "admin"]>
                           (<["password" := JStr "guess"]> ∅)));
        TextJson JNull]) ()
  = (Ok tt,
     {| accepted := true; inbound := [TextJson JNull]; sent := [];
        closed := Some (1008, "Authorization error"%string) |}, ()).
Proof.
  apply (wrong_credentials_close "admin" "secret" (fun _ => ""%string)
           (fun ws (h : unit) =>
              (Ok tt, ws_send (FinishedMessage JNull) ws, h))
           (fresh_socket
              [TextJson (JDict (<["username" := JStr "admin"]>
                                  (<["password" := JStr "guess"]> ∅)));
               TextJson JNull])
           (<["username" := JStr "admin"]>
              (<["password" := JStr "guess"]> ∅)) [TextJson JNull] ());
    [reflexivity|].
  right. by vm_compute.
Defined.

Lemma not_json_close_witness :
  websocket_handler "admin" "secret" (fun _ => ""%string)
    (fun ws (h : unit) => (Ok tt, ws_send (FinishedMessage JNull) ws, h))
    (fresh_socket [TextNotJson; TextJson JNull]) ()
  = (Ok tt,
     {| accepted := true; inbound := [TextJson JNull]; sent := [];
        closed :=
          Some (1008,
                "Server received message that is not in json format"%string)
     |}, ()).
Proof.
  by apply (not_json_close "admin" "secret" (fun _ => ""%string)
              (fun ws (h : unit) =>
                 (Ok tt, ws_send (FinishedMessage JNull) ws, h))
              (fresh_socket [TextNotJson; TextJson JNull])
              [TextJson JNull] ()).
Defined.

Lemma disconnect_before_credentials_witness :
  websocket_handler "admin" "secret" (fun _ => ""%string)
    (fun ws (h : unit) => (Ok tt, ws_send (FinishedMessage JNull) ws, h))
    (fresh_socket [ClientDisconnect]) ()
  = (Ok tt,
     {| accepted := true; inbound := []; sent := []; closed := None |}, ()).
Proof.
  by apply (disconnect_before_credentials "admin" "secret"
              (fun _ => ""%string)
              (fun ws (h : unit) =>
                 (Ok tt, ws_send (FinishedMessage JNull) ws, h))
              (fresh_socket [ClientDisconnect]) [] ()).
Defined.

(** *** The [upscale] endpoint *)

Section UpscaleFacts.

Context {Img Model : Type}.
Variable width height : Img -> Z.
Variable base64url_to_image : string -> result Img.
Variable image_to_base64url : Img -> string.
Variable esrgan_upscale : Img -> Model -> result Img.
Variable resize : Img -> Z * Z -> result Img.

Abbreviation loop := (upscale_while width height esrgan_upscale).
Abbreviation endpoint :=
  (upscale width height base64url_to_image image_to_base64url
     esrgan_upscale resize).

(** The loop only leaves with an image that covers the target. *)
Lemma upscale_while_covers fuel (req : UpscaleRequest Model) img out :
  loop fuel req img = Some (Ok out) ->
  up_target_width req <= width out /\ up_target_height req <= height out.
Proof.
  revert img. induction fuel as [|fuel IH]; intros img; [discriminate|].
  simpl.
  destruct (Z.ltb_spec (width img) (up_target_width req)),
           (Z.ltb_spec (height img) (up_target_height req)); simpl;
    try (destruct (esrgan_upscale img (up_model req)); [apply IH|discriminate]).
  intros [= <-]. lia.
Qed.

(** More fuel does not change what the loop returns. *)
Lemma upscale_while_more_fuel fuel fuel' (req : UpscaleRequest Model) img r :
  loop fuel req img = Some r -> (fuel <= fuel')%nat ->
  loop fuel' req img = Some r.
Proof.
  revert fuel' img. induction fuel as [|fuel IH]; intros fuel' img;
    [discriminate|].
  intros E Hle. destruct fuel' as [|fuel']; [lia|]. simpl in *.
  destruct (_ || _); [|done].
  destruct (esrgan_upscale img (up_model req)); [|done].
  apply IH; [done|lia].
Qed.

Lemma upscale_while_returns fuel (req : UpscaleRequest Model) img :
  upscaler_enlarges width height esrgan_upscale ->
  1 <= width img -> 1 <= height img ->
  (shortfall width height req img < fuel)%nat ->
  exists r, loop fuel req img = Some r.
Proof.
  intros Hup. revert img.
  induction fuel as [|fuel IH]; intros img Hw Hh Hfuel; [lia|].
  simpl. destruct (_ || _) eqn:Econd; [|eauto].
  destruct (esrgan_upscale img (up_model req)) as [img'|e] eqn:E; [|eauto].
  destruct (Hup _ _ _ Hw Hh E) as [Hw' Hh'].
  apply IH; [lia..|].
  unfold shortfall in *. apply orb_true_iff in Econd as [Hc|Hc];
    apply Z.ltb_lt in Hc; lia.
Qed.

(** X12: whenever [upscale] responds, the image it encodes (with
    [maximize]) or resizes to the target (without) is at least as wide
    and as high as the target: the final resize never enlarges. *)
Theorem upscale_covers_target fuel (req : UpscaleRequest Model) s :
  endpoint fuel req = Some (Responds s) ->
  exists final,
    up_target_width req <= width final /\
    up_target_height req <= height final /\
    if up_maximize req then s = image_to_base64url final
    else exists out,
        resize final (up_target_width req, up_target_height req) = Ok out /\
        s = image_to_base64url out.
Proof.
  unfold upscale.
  destruct (base64url_to_image (up_image req)) as [src|e];
    [|by destruct e].
  destruct (loop fuel req src) as [[final|e]|] eqn:E;
    [|by destruct e|discriminate].
  apply upscale_while_covers in E as [Hw Hh].
  destruct (up_maximize req); simpl.
  - intros [= <-]. eauto.
  - destruct (resize final _) as [out|e] eqn:Er; [|by destruct e].
    intros [= <-]. eauto 10.
Qed.

(** X13: with an upscaler that enlarges every image of positive size,
    [upscale] returns for a source of positive size: any number of
    rounds above the source's shortfall suffices, and all such numbers
    give the same answer. *)
Theorem upscale_returns (req : UpscaleRequest Model) src fuel fuel' :
  upscaler_enlarges width height esrgan_upscale ->
  base64url_to_image (up_image req) = Ok src ->
  1 <= width src -> 1 <= height src ->
  (shortfall width height req src < fuel)%nat ->
  (shortfall width height req src < fuel')%nat ->
  (exists answer, endpoint fuel req = Some answer) /\
  endpoint fuel req = endpoint fuel' req.
Proof.
  intros Hup Hsrc Hw Hh Hfuel Hfuel'.
  destruct (upscale_while_returns (S (shortfall width height req src))
              req src Hup Hw Hh) as [r Hr]; [lia|].
  assert (loop fuel req src = Some r) as E
    by (eapply upscale_while_more_fuel; [exact Hr|lia]).
  assert (loop fuel' req src = Some r) as E'
    by (eapply upscale_while_more_fuel; [exact Hr|lia]).
  unfold upscale. rewrite Hsrc, E, E'. split; [|done].
  destruct r as [final|e]; [|eauto].
  destruct (negb (up_maximize req)); [|eauto].
  destruct (resize final _); eauto.
Qed.

(** X14: [upscale] never lets a [RuntimeError] out, and the only
    [HTTPException] it raises is 400 'Scaling factor or image is too
    large'. *)
Theorem upscale_runtime_error_is_400 fuel (req : UpscaleRequest Model) :
  match endpoint fuel req with
  | Some (Fails e) => e <> RuntimeError
  | Some (HTTPException status_code detail) =>
      status_code = 400 /\
      detail = Some "Scaling factor or image is too large"%string
  | _ => True
  end.
Proof.
  assert (forall e,
            match @upscale_except string e with
            | Fails e' => e' <> RuntimeError
            | HTTPException status_code detail =>
                status_code = 400 /\
                detail = Some "Scaling factor or image is too large"%string
            | Responds _ => True
            end) as Hexcept by (by intros []).
  unfold upscale.
  destruct (base64url_to_image (up_image req)) as [src|e]; [|apply Hexcept].
  destruct (loop fuel req src) as [[final|e]|]; [|apply Hexcept|done].
  destruct (negb (up_maximize req)); [|done].
  destruct (resize final _); [done|apply Hexcept].
Qed.

End UpscaleFacts.

Lemma toy_upscale_enlarges limit :
  upscaler_enlarges fst snd (toy_upscale limit).
Proof.
  intros [w h] [] [w' h'] Hw Hh. unfold toy_upscale. simpl in *.
  destruct (_ <? _); [discriminate|]. intros [= <- <-]. lia.
Qed.

(** A 3 by 3 image asked for at 40 by 20: two rounds of the upscaler
    give 48 by 48, which is resized to the target. *)
Lemma upscale_covers_target_witness :
  let req := mkUpscaleRequest "abc" 40 20 false () in
  exists final : Z * Z,
    40 <= final.1 /\ 20 <= final.2 /\
    exists out, toy_resize_to final (40, 20) = Ok out /\
                "landscape"%string = toy_encode out.
Proof.
  intros req.
  apply (upscale_covers_target fst snd toy_square toy_encode
           (toy_upscale 10000) toy_resize_to 5 req "landscape").
  reflexivity.
Defined.

Lemma upscale_returns_witness :
  let req := mkUpscaleRequest "abc" 40 20 true () in
  (exists answer,
     upscale fst snd toy_square toy_encode (toy_upscale 10000)
       toy_resize_to 60 req = Some answer) /\
  upscale fst snd toy_square toy_encode (toy_upscale 10000)
    toy_resize_to 60 req
  = upscale fst snd toy_square toy_encode (toy_upscale 10000)
      toy_resize_to 100 req.
Proof.
  intros req.
  apply (upscale_returns fst snd toy_square toy_encode
           (toy_upscale 10000) toy_resize_to req (3, 3) 60%nat 100%nat).
  - apply toy_upscale_enlarges.
  - reflexivity.
  - simpl. lia.
  - simpl. lia.
  - vm_compute. lia.
  - vm_compute. lia.
Defined.

(** *** Runs without candidates and runs without retries *)



(** *** What a run may raise *)

Section RunRaises.

Context {W Image K : Type}.
Variable diffusion_method : W -> call K -> invocation Image * W.

(** What a run can raise, exception by exception; sends to the client
    succeed in this model, so every exception comes from the pipeline
    or from the loop itself. *)
Lemma do_diffusion_raise_cases req kwargs (st : state W Image K) :
  match (do_diffusion diffusion_method req kwargs st).1 with
  | Raise RuntimeError | Raise AttributeError
  | Raise JSONDecodeError | Raise WebSocketDisconnect => False
  | Raise (BatchSizeIsTooLargeException b) =>
      try_smaller_batch_on_fail req = false /\
      b = Z.min (batch_size req) (num_variants req)
  | Raise AspectRatioTooWideException =>
      try_smaller_batch_on_fail req = true \/
      Z.min (batch_size req) (num_variants req) <= 0
  | _ => True
  end.
Proof.
  destruct (do_diffusion diffusion_method req kwargs st) as [r st'] eqn:E.
  simpl. unfold do_diffusion in E.
  set (start := Z.min (batch_size req) (num_variants req)) in *.
  apply search_spec in E as (failed & _ & Hne & _ & Hcases).
  destruct Hcases as [(-> & Hc & _)|
    (b & rest & st_b & r_b & Hc & _ & Hatt & _ & Hesc)].
  - destruct failed as [|b failed]; [|left; by apply Hne].
    right. destruct (Z.le_gt_cases start 0) as [|Hpos]; [done|].
    rewrite py_range_down_countdown, countdown_first in Hc by lia.
    discriminate.
  - destruct r_b as [images|e]; simpl in Hesc; [by subst r|].
    apply attempt_raises in Hatt as [->|[->|(name & ->)]]; simpl in Hesc.
    + by subst r.
    + destruct Hesc as [Htry ->]. split; [done|].
      destruct failed as [|b' failed];
        [|rewrite Hne in Htry; [discriminate|done]].
      simpl in Hc. assert (b ∈ py_range_down start) as Hb
        by (rewrite Hc; left).
      apply py_range_down_elem in Hb.
      rewrite py_range_down_countdown, countdown_first in Hc by lia.
      by injection Hc as -> _.
    + by subst r.
Qed.

(** X15: a [RuntimeError] of the pipeline never leaves [do_diffusion]:
    it is absorbed by a retry or turned into a domain error. The run
    raises [BatchSizeIsTooLargeException] only with retries off and only
    for [min(batch_size, num_variants)], and
    [AspectRatioTooWideException] only with retries on or without any
    candidate. *)
Theorem do_diffusion_raises req kwargs (st : state W Image K) :
  match (do_diffusion diffusion_method req kwargs st).1 with
  | Raise RuntimeError => False
  | Raise (BatchSizeIsTooLargeException b) =>
      try_smaller_batch_on_fail req = false /\
      b = Z.min (batch_size req) (num_variants req)
  | Raise AspectRatioTooWideException =>
      try_smaller_batch_on_fail req = true \/
      Z.min (batch_size req) (num_variants req) <= 0
  | _ => True
  end.
Proof.
  pose proof (do_diffusion_raise_cases req kwargs st) as Hcases.
  by destruct (do_diffusion diffusion_method req kwargs st).1 as [|[]].
Qed.

End RunRaises.

(** *** The [text_to_image] endpoint *)

Lemma receive_json_exchanged (ws : WebSocket) r ws' :
  receive_json ws = (r, ws') -> exchanged [] ws ws'.
Proof.
  unfold receive_json, exchanged.
  destruct (inbound ws) as [|[v| |] rest]; intros [= <- <-]; simpl;
    by rewrite app_nil_r.
Qed.

Lemma exchanged_trans ms1 ms2 (ws1 ws2 ws3 : WebSocket) :
  exchanged ms1 ws1 ws2 -> exchanged ms2 ws2 ws3 ->
  exchanged (ms1 ++ ms2) ws1 ws3.
Proof.
  intros (Ha & Hc & Hs) (Ha' & Hc' & Hs'). repeat split; try congruence.
  rewrite Hs', Hs. by rewrite <- app_assoc.
Qed.

Lemma only_progress_sent_exchanged (ws ws' : WebSocket) :
  only_progress_sent ws ws' ->
  exists ps, exchanged (ProgressMessage <$> ps) ws ws'.
Proof. intros (Ha & _ & Hc & ps & Hs). by exists ps. Qed.

Section TextToImageFacts.

Context {W Image Extra : Type}.
Variables USERNAME PASSWORD : string.
Variable message_of : exn -> string.
Variable pipeline_text_to_image :
  W -> call (Z * Z) -> invocation Image * W.
Variable TextToImageRequest : json -> result (request * Extra).
Variable size_from_aspect_ratio : Extra -> result (Z * Z).
Variable response_json : list Image -> json.

Abbreviation Session := (state W Image (Z * Z)).
Abbreviation handler :=
  (text_to_image pipeline_text_to_image TextToImageRequest
     size_from_aspect_ratio response_json).
Abbreviation served :=
  (text_to_image_endpoint USERNAME PASSWORD message_of
     pipeline_text_to_image TextToImageRequest size_from_aspect_ratio
     response_json).

(** What the handler sends: progress messages, then FINISHED when it
    returns and nothing more when it raises; it does not close. When it
    has not called the pipeline it has sent nothing. *)
Lemma text_to_image_messages (st : Session) r st' :
  handler st = (r, st') ->
  exists ps,
    match r with
    | Ok _ =>
        exists images,
          exchanged
            ((ProgressMessage <$> ps)
               ++ [FinishedMessage (response_json images)])
            (websocket st) (websocket st')
    | Raise _ => exchanged (ProgressMessage <$> ps)
                   (websocket st) (websocket st')
    end.
Proof.
  unfold text_to_image. unfold bind at 1. unfold receive_request.
  destruct (receive_json (websocket st)) as [r1 ws1] eqn:E1.
  apply receive_json_exchanged in E1.
  destruct r1 as [v|e]; [|intros [= <- <-]; by exists []].
  unfold bind at 1. unfold lift at 1.
  destruct (TextToImageRequest v) as [parsed|e];
    [|intros [= <- <-]; by exists []].
  unfold bind at 1. unfold lift at 1.
  destruct (size_from_aspect_ratio parsed.2) as [size|e];
    [|intros [= <- <-]; by exists []].
  unfold bind at 1.
  destruct (do_diffusion _ _ _ _) as [r2 st2] eqn:E2.
  unfold do_diffusion in E2. apply search_sends in E2.
  apply only_progress_sent_exchanged in E2 as (ps & E2). simpl in E2.
  pose proof (exchanged_trans _ _ _ _ _ E1 E2) as E12. simpl in E12.
  destruct r2 as [images|e]; [|intros [= <- <-]; by exists ps].
  unfold send_json. intros [= <- <-]. exists ps, images. simpl.
  destruct E12 as (Ha & Hc & Hs). repeat split; try done.
  simpl. rewrite Hs. by rewrite <- app_assoc.
Qed.

Lemma authorize_web_socket_exchanged (ws : WebSocket) r ws' :
  authorize_web_socket USERNAME PASSWORD ws = (r, ws') ->
  accepted ws' = accepted ws /\ sent ws' = sent ws /\
  (closed ws' = closed ws \/
   r = Ok false /\ exists reason, closed ws' = Some (1008, reason)).
Proof.
  unfold authorize_web_socket.
  destruct (receive_json ws) as [r1 ws1] eqn:E1.
  apply receive_json_exchanged in E1 as (Ha & Hc & Hs).
  rewrite app_nil_r in Hs.
  destruct r1 as [v|e]; [|intros [= <- <-]; auto].
  destruct (credentials_rejected USERNAME PASSWORD v) as [[]|e];
    intros [= <- <-]; simpl; eauto 10.
Qed.

Lemma wrapper_except_exchanged {H : Type} e (ws : WebSocket) (h : H) :
  let out := wrapper_except message_of e ws h in
  accepted out.1.2 = accepted ws /\ sent out.1.2 = sent ws /\
  out.2 = h /\
  (closed out.1.2 = closed ws \/
   out.1.1 = Ok tt /\ exists reason, closed out.1.2 = Some (1008, reason)).
Proof.
  unfold wrapper_except.
  destruct (is_BaseWebSocketException e); [simpl; eauto 10|].
  destruct e; simpl; eauto 10.
Qed.

(** X16: whatever the client sends, the endpoint sends progress
    messages followed by at most one FINISHED message, which is then
    the last one; after FINISHED the session ends normally and the
    server does not close; and when the server closes, it closes with
    code 1008. The connection is accepted in every case. *)
Theorem text_to_image_protocol (ws : WebSocket) (st : Session) :
  let out := served ws st in
  accepted out.1.2 = true /\
  exists ps,
    (exists images,
       out.1.1 = Ok tt /\
       sent out.1.2
       = sent ws ++ (ProgressMessage <$> ps)
           ++ [FinishedMessage (response_json images)] /\
       closed out.1.2 = closed ws) \/
    (sent out.1.2 = sent ws ++ (ProgressMessage <$> ps) /\
     (closed out.1.2 = closed ws \/
      exists reason, closed out.1.2 = Some (1008, reason))).
Proof.
  unfold text_to_image_endpoint, websocket_handler.
  destruct (authorize_web_socket USERNAME PASSWORD (ws_accept ws))
    as [r ws1] eqn:E1.
  apply authorize_web_socket_exchanged in E1 as (Ha1 & Hs1 & Hc1).
  simpl in Ha1, Hs1, Hc1.
  destruct r as [[]|e].
  - unfold on_connection.
    destruct (text_to_image _ _ _ _ _) as [r2 st2] eqn:E2.
    apply text_to_image_messages in E2 as (ps & E2). simpl in E2.
    destruct Hc1 as [Hc1|[[=] _]].
    destruct r2 as [[]|e].
    + destruct E2 as (images & Ha2 & Hc2 & Hs2). simpl.
      split; [congruence|]. exists ps. left. exists images.
      repeat split; congruence.
    + destruct E2 as (Ha2 & Hc2 & Hs2).
      pose proof (wrapper_except_exchanged e (websocket st2) st2)
        as (Ha3 & Hs3 & _ & Hc3).
      split; [simpl in *; congruence|]. exists ps. right.
      split; [simpl in *; congruence|].
      destruct Hc3 as [Hc3|(_ & reason & Hc3)];
        [left; simpl in *; congruence|right; eauto].
  - simpl. split; [done|]. exists []. right. simpl.
    rewrite app_nil_r. split; [done|].
    destruct Hc1 as [Hc1|(_ & reason & Hc1)]; eauto.
  - pose proof (wrapper_except_exchanged e ws1 st) as (Ha3 & Hs3 & _ & Hc3).
    split; [simpl in *; congruence|]. exists []. right. simpl.
    rewrite app_nil_r. split; [simpl in *; congruence|].
    destruct Hc3 as [Hc3|(_ & reason & Hc3)]; [|right; eauto].
    destruct Hc1 as [Hc1|([=] & _)]. left. simpl in *. congruence.
Qed.

Lemma text_to_image_idle (st : Session) r st' :
  handler st = (r, st') ->
  (device st' = device st /\ invocations st' = invocations st /\
   sent (websocket st') = sent (websocket st)) \/
  (exists v rest parsed size,
     inbound (websocket st) = TextJson v :: rest /\
     TextToImageRequest v = Ok parsed /\
     size_from_aspect_ratio parsed.2 = Ok size).
Proof.
  unfold text_to_image. unfold bind at 1. unfold receive_request.
  unfold receive_json.
  destruct (inbound (websocket st)) as [|[v| |] rest] eqn:Ein;
    try (intros [= <- <-]; by left).
  unfold bind at 1. unfold lift at 1.
  destruct (TextToImageRequest v) as [parsed|e] eqn:Ep;
    [|intros [= <- <-]; by left].
  unfold bind at 1. unfold lift at 1.
  destruct (size_from_aspect_ratio parsed.2) as [size|e] eqn:Es;
    [|intros [= <- <-]; by left].
  intros _. right. eauto 10.
Qed.

(** X17: the pipeline is called, and anything is sent, only after the
    first frame carried the configured credentials, the second was
    validated as a request and its size was computed: in every other
    session the device and the log of calls are as they were and
    nothing has been sent. *)
Theorem text_to_image_generation_needs_request (ws : WebSocket)
    (st : Session) :
  let out := served ws st in
  (device out.2 = device st /\ invocations out.2 = invocations st /\
   sent out.1.2 = sent ws) \/
  (exists d v rest parsed size,
     inbound ws = TextJson (JDict d) :: TextJson v :: rest /\
     d !! "username" = Some (JStr USERNAME) /\
     d !! "password" = Some (JStr PASSWORD) /\
     TextToImageRequest v = Ok parsed /\
     size_from_aspect_ratio parsed.2 = Ok size).
Proof.
  unfold text_to_image_endpoint, websocket_handler.
  destruct (authorize_web_socket USERNAME PASSWORD (ws_accept ws))
    as [r ws1] eqn:E1.
  pose proof E1 as Hx.
  apply authorize_web_socket_exchanged in Hx as (_ & Hs1 & _).
  simpl in Hs1.
  destruct r as [[]|e].
  - pose proof (f_equal fst E1) as Hacc. simpl in Hacc.
    apply authorize_web_socket_true_iff in Hacc as (d & rest1 & Hin & Hu & Hp).
    simpl in Hin.
    unfold authorize_web_socket, receive_json in E1. simpl in E1.
    rewrite Hin in E1.
    rewrite (proj2 (credentials_rejected_dict USERNAME PASSWORD d)
               (conj Hu Hp)) in E1.
    injection E1 as <-.
    unfold on_connection.
    destruct (text_to_image _ _ _ _ _) as [r2 st2] eqn:E2.
    apply text_to_image_idle in E2
      as [(Hd & Hi & Hs)|(v & rest & parsed & size & Hin2 & Hp2 & Hs2)].
    + left. simpl in Hd, Hi, Hs. destruct r2 as [[]|e]; simpl; [done|].
      pose proof (wrapper_except_exchanged e (websocket st2) st2)
        as (_ & Hs3 & Hst & _).
      rewrite Hst. simpl in Hs3. repeat split; congruence.
    + right. simpl in Hin2. subst rest1. eauto 15.
  - left. simpl. auto.
  - left. pose proof (wrapper_except_exchanged e ws1 st)
      as (_ & Hs3 & Hst & _).
    rewrite Hst. simpl in Hs3. repeat split; congruence.
Qed.

(** X18: in a session with the configured credentials and a valid
    request, the result of [do_diffusion] decides the ending: images
    are sent in one FINISHED message and the connection stays open; a
    domain error closes the connection with code 1008 and the error's
    message, without FINISHED; any other exception leaves the endpoint,
    which sends nothing more and does not close. *)
Theorem text_to_image_outcome (ws : WebSocket) (st : Session)
    d v rest parsed size :
  inbound ws = TextJson (JDict d) :: TextJson v :: rest ->
  d !! "username" = Some (JStr USERNAME) ->
  d !! "password" = Some (JStr PASSWORD) ->
  TextToImageRequest v = Ok parsed ->
  size_from_aspect_ratio parsed.2 = Ok size ->
  let run :=
    do_diffusion pipeline_text_to_image parsed.1 (size.2, size.1)
      (with_websocket (ws_consume rest (ws_accept ws)) st) in
  let out := served ws st in
  match run.1 with
  | Ok images =>
      out.1 = (Ok tt,
               ws_send (FinishedMessage (response_json images))
                 (websocket run.2))
  | Raise e =>
      if is_BaseWebSocketException e
      then out = (Ok tt,
                  ws_close WS_1008_POLICY_VIOLATION (message_of e)
                    (websocket run.2), run.2)
      else out = (Raise e, websocket run.2, run.2)
  end.
Proof.
  intros Hin Hu Hp Hparse Hsize run out.
  pose proof (do_diffusion_raise_cases pipeline_text_to_image parsed.1
                (size.2, size.1)
                (with_websocket (ws_consume rest (ws_accept ws)) st))
    as Hraises.
  fold run in Hraises.
  assert (out =
          match run with
          | (Ok images, st1) =>
              (Ok tt,
               ws_send (FinishedMessage (response_json images))
                 (websocket st1),
               (send_json (FinishedMessage (response_json images)) st1).2)
          | (Raise e, st1) => wrapper_except message_of e (websocket st1) st1
          end) as ->.
  { unfold out, text_to_image_endpoint.
    rewrite (right_credentials_run_handler USERNAME PASSWORD message_of
               _ ws d (TextJson v :: rest) st Hin Hu Hp).
    unfold on_connection, text_to_image.
    unfold bind at 1. unfold receive_request, receive_json. simpl.
    unfold bind at 1. unfold lift at 1. rewrite Hparse.
    unfold bind at 1. unfold lift at 1. rewrite Hsize.
    unfold bind at 1.
    change (do_diffusion _ _ _ _) with run.
    destruct run as [[images|e] st1]; reflexivity. }
  destruct run as [[images|e] st1]; simpl in *; [done|].
  unfold wrapper_except.
  destruct (is_BaseWebSocketException e); [done|].
  by destruct e.
Qed.

End TextToImageFacts.

(** Three variants in batches of two on a device that holds two: one
    full batch, a remainder of one, then FINISHED with the three
    images. *)
Lemma text_to_image_outcome_witness :
  let ws :=
    fresh_socket [TextJson toy_credentials;
                  TextJson (toy_message 3 2 true)] in
  let run :=
    do_diffusion (toy_text_to_image 2 0) (toy_request 3 2 2 true)
      (512, 512)
      (with_websocket (ws_consume [] (ws_accept ws)) toy_session) in
  (text_to_image_endpoint "admin" "secret" toy_message_of
     (toy_text_to_image 2 0) toy_TextToImageRequest toy_size
     toy_response_json ws toy_session).1
  = (Ok tt,
     ws_send (FinishedMessage (toy_response_json [0; 1; 2]%nat))
       (websocket run.2)).
Proof.
  intros ws run.
  exact (text_to_image_outcome "admin" "secret" toy_message_of
           (toy_text_to_image 2 0) toy_TextToImageRequest toy_size
           toy_response_json ws toy_session
           (<["username" := JStr "admin"]>
              (<["password" := JStr "secret"]> ∅))
           (toy_message 3 2 true) [] (toy_request 3 2 2 true, ())
           (512, 512) eq_refl eq_refl eq_refl eq_refl eq_refl).
Defined.

(** *** Retries that cannot fail *)

Section RetryFacts.

Context {W Image K : Type}.
Variable diffusion_method : W -> call K -> invocation Image * W.

Abbreviation Run := (state W Image K).





End RetryFacts.



(** *** Masks that reach the pipeline *)

Lemma tensor_max_any (m a : tensor) :
  length m = length a ->
  Forall (fun x => 0 <= x)%Q m ->
  tensor_any m = true -> tensor_any (tensor_max m a) = true.
Proof.
  intros Hlen Hm. revert a Hlen.
  induction Hm as [|x m Hx _ IH]; intros [|y a]; try discriminate.
  intros [= Hlen] Hany.
  unfold tensor_max, tensor_any in *. simpl in *.
  apply orb_true_iff in Hany as [Hany|Hany]; apply orb_true_iff.
  - left. apply negb_true_iff in Hany. apply negb_true_iff.
    destruct (Qle_bool x y) eqn:E; [|done].
    apply Qle_bool_iff in E.
    destruct (Qeq_bool y 0) eqn:Ey; [|done].
    apply Qeq_bool_iff in Ey. rewrite Ey in E.
    assert (x == 0)%Q as Hx0 by (by apply Qle_antisym).
    apply Qeq_bool_iff in Hx0. congruence.
  - right. by apply IH.
Qed.

Section MaskFacts.

Context {PILImage Size : Type}.
Variable mode : PILImage -> string.
Variable getchannel : PILImage -> string -> PILImage.
Variable resize : PILImage -> Size -> PILImage.
Variable base64url_to_image : string -> PILImage.
Variable preprocess_mask : PILImage -> tensor.

(** X20: [inpainting] never passes a tensor without a non-zero element.
    The alpha it passes, when it passes one, has a non-zero element;
    so has the mask, when the explicit mask has no negative element and
    as many elements as the alpha channel. Without an explicit mask the
    mask is the alpha. *)
Theorem inpainting_masks_not_empty source_image request_mask size :
  (forall s, request_mask = Some s ->
     let m := preprocess_mask (resize (base64url_to_image s) size) in
     Forall (fun x => 0 <= x)%Q m /\
     length m = length (preprocess_mask (getchannel source_image "A"))) ->
  let out :=
    inpainting_masks mode getchannel resize base64url_to_image
      preprocess_mask source_image request_mask size in
  (forall t, out.2 = Some t -> tensor_any t = true) /\
  (forall t, out.1 = Some t -> tensor_any t = true) /\
  (py_truthy_str request_mask = false -> out.1 = out.2).
Proof.
  intros Hshape out.
  assert (forall t t', none_if_empty t = Some t' ->
            t = Some t' /\ tensor_any t' = true) as Hnone.
  { intros [t|] t'; simpl; [|done].
    destruct (tensor_any t) eqn:E; [|done]. by intros [= <-]. }
  unfold out, inpainting_masks. simpl.
  split; [|split].
  - intros t Ht. by apply Hnone in Ht as [_ ?].
  - intros t. unfold combine_masks.
    destruct (alpha_mask _ _ _ _) as [a|] eqn:Ea;
      destruct (explicit_mask _ _ _ _ _) as [m|] eqn:Em;
      intros [= <-].
    + apply Hnone in Ea as [Ea _], Em as [Em Hm].
      destruct (String.eqb _ _); [|discriminate]. injection Ea as <-.
      destruct (py_truthy_str request_mask); [|discriminate].
      destruct request_mask as [s|]; [|discriminate].
      simpl in Em. injection Em as <-.
      destruct (Hshape s eq_refl) as [Hpos Hlen].
      apply tensor_max_any; [|done..].
      rewrite Hlen. unfold alpha_derived, tensor_one_minus.
      by rewrite length_fmap.
    + by apply Hnone in Ea as [_ ?].
    + by apply Hnone in Em as [_ ?].
  - intros Hf. unfold explicit_mask. rewrite Hf. simpl.
    by destruct (alpha_mask _ _ _ _).
Qed.

End MaskFacts.

(** A half-transparent RGBA source with the explicit mask [[0, 1]]:
    both tensors passed have a non-zero element. *)
Lemma inpainting_masks_not_empty_witness :
  let source : toy_image := ("RGBA"%string, [1 # 2; 1]%Q) in
  let out :=
    inpainting_masks toy_mode toy_getchannel toy_resize toy_decode
      toy_preprocess_mask source (Some "01"%string) () in
  (forall t, out.2 = Some t -> tensor_any t = true) /\
  (forall t, out.1 = Some t -> tensor_any t = true) /\
  (py_truthy_str (Some "01"%string) = false -> out.1 = out.2).
Proof.
  intros source.
  apply (inpainting_masks_not_empty toy_mode toy_getchannel toy_resize
           toy_decode toy_preprocess_mask source (Some "01"%string) ()).
  intros s [= <-]. simpl. split; [|reflexivity].
  repeat constructor; discriminate.
Defined.
